(** * White Noise Pomodoro: the timer state machine and its audio engine

    A shallow embedding of [white-noise-pomodoro.py].  The Python objects
    ([PomodoroApp], its [WhiteNoisePlayer], the Tk root, the [sounddevice]
    layer, standard output) are one record, [App]; every method is a
    computation in a state-and-exception monad over that record, so that
    [try]/[finally], [try]/[except] and an exception leaving a method are
    written the way the source has them. *)

From Stdlib Require Import ZArith List String Ascii Bool Lia DecimalString.
From Stdlib Require Import Floats.SpecFloat.
Import ListNotations.
Open Scope string_scope.
Open Scope list_scope.
Open Scope Z_scope.

(** ** Module constants *)

Definition POMODORO_DURATION_SECONDS : Z := 25 * 60.
Definition SHORT_BREAK_DURATION_SECONDS : Z := 5 * 60.
Definition DING_FREQUENCY_HZ : Z := 880.

(** ** Exceptions and outcomes

    Every exception the program can meet comes from the device layer and is
    an instance of [Exception]; it carries the text that [print] shows. *)

Inductive exn : Type := Exception (msg : string).

Definition exn_str (e : exn) : string := match e with Exception m => m end.

Inductive outcome (A : Type) : Type :=
| Return (a : A)
| Raise (e : exn).
Arguments Return {A} a.
Arguments Raise {A} e.

(** ** Observation log

    Not a field of the source: it records, in order, each invocation of
    [noise_player.start], of [noise_player.stop], and each chime thread that
    [_play_ding_async] spawns, so that "requested exactly once" can be
    counted. *)

Inductive call : Type := NoiseStart | NoiseStop | DingThread.

Definition call_eqb (a b : call) : bool :=
  match a, b with
  | NoiseStart, NoiseStart | NoiseStop, NoiseStop | DingThread, DingThread => true
  | _, _ => false
  end.

Definition count_call (c : call) (l : list call) : nat :=
  List.length (filter (call_eqb c) l).

(** ** The state

    [_stream] is [noise_player._stream]: [None], or the handle of the
    [sd.OutputStream] object it refers to.  The [after_*] fields are the Tk
    root's table of scheduled callbacks (only [_tick] is ever scheduled, so
    an entry is the identifier [root.after] returned and its delay in
    milliseconds).  The [dev_*] fields are the audio device as PortAudio
    sees it: [dev_faults] is the outcome of the device calls still to come
    ([Some msg]: the call raises; [None], or an exhausted list: it
    succeeds), [dev_open] the streams constructed and not closed,
    [dev_active] the streams started and not stopped. *)

Record App : Type := mkApp {
  timer_var : string;
  white_noise_var : bool;
  _stream : option nat;
  remaining_seconds : Z;
  timer_running : bool;
  timer_id : option nat;
  noise_desired : bool;
  after_next : nat;
  after_pending : list (nat * Z);
  dev_faults : list (option string);
  dev_next : nat;
  dev_open : list nat;
  dev_active : list nat;
  dev_played : list (list spec_float * Z);
  stdout : list string;
  calls : list call
}.

Definition set_timer_var v (s : App) :=
  mkApp v (white_noise_var s) (_stream s) (remaining_seconds s)
    (timer_running s) (timer_id s) (noise_desired s) (after_next s)
    (after_pending s) (dev_faults s) (dev_next s) (dev_open s) (dev_active s)
    (dev_played s) (stdout s) (calls s).
Definition set_white_noise_var v (s : App) :=
  mkApp (timer_var s) v (_stream s) (remaining_seconds s)
    (timer_running s) (timer_id s) (noise_desired s) (after_next s)
    (after_pending s) (dev_faults s) (dev_next s) (dev_open s) (dev_active s)
    (dev_played s) (stdout s) (calls s).
Definition set_stream v (s : App) :=
  mkApp (timer_var s) (white_noise_var s) v (remaining_seconds s)
    (timer_running s) (timer_id s) (noise_desired s) (after_next s)
    (after_pending s) (dev_faults s) (dev_next s) (dev_open s) (dev_active s)
    (dev_played s) (stdout s) (calls s).
Definition set_remaining_seconds v (s : App) :=
  mkApp (timer_var s) (white_noise_var s) (_stream s) v
    (timer_running s) (timer_id s) (noise_desired s) (after_next s)
    (after_pending s) (dev_faults s) (dev_next s) (dev_open s) (dev_active s)
    (dev_played s) (stdout s) (calls s).
Definition set_timer_running v (s : App) :=
  mkApp (timer_var s) (white_noise_var s) (_stream s) (remaining_seconds s)
    v (timer_id s) (noise_desired s) (after_next s)
    (after_pending s) (dev_faults s) (dev_next s) (dev_open s) (dev_active s)
    (dev_played s) (stdout s) (calls s).
Definition set_timer_id v (s : App) :=
  mkApp (timer_var s) (white_noise_var s) (_stream s) (remaining_seconds s)
    (timer_running s) v (noise_desired s) (after_next s)
    (after_pending s) (dev_faults s) (dev_next s) (dev_open s) (dev_active s)
    (dev_played s) (stdout s) (calls s).
Definition set_noise_desired v (s : App) :=
  mkApp (timer_var s) (white_noise_var s) (_stream s) (remaining_seconds s)
    (timer_running s) (timer_id s) v (after_next s)
    (after_pending s) (dev_faults s) (dev_next s) (dev_open s) (dev_active s)
    (dev_played s) (stdout s) (calls s).
Definition set_after v w (s : App) :=
  mkApp (timer_var s) (white_noise_var s) (_stream s) (remaining_seconds s)
    (timer_running s) (timer_id s) (noise_desired s) v
    w (dev_faults s) (dev_next s) (dev_open s) (dev_active s)
    (dev_played s) (stdout s) (calls s).
Definition set_dev f n o a (s : App) :=
  mkApp (timer_var s) (white_noise_var s) (_stream s) (remaining_seconds s)
    (timer_running s) (timer_id s) (noise_desired s) (after_next s)
    (after_pending s) f n o a
    (dev_played s) (stdout s) (calls s).
Definition set_dev_played v (s : App) :=
  mkApp (timer_var s) (white_noise_var s) (_stream s) (remaining_seconds s)
    (timer_running s) (timer_id s) (noise_desired s) (after_next s)
    (after_pending s) (dev_faults s) (dev_next s) (dev_open s) (dev_active s)
    v (stdout s) (calls s).
Definition set_stdout v (s : App) :=
  mkApp (timer_var s) (white_noise_var s) (_stream s) (remaining_seconds s)
    (timer_running s) (timer_id s) (noise_desired s) (after_next s)
    (after_pending s) (dev_faults s) (dev_next s) (dev_open s) (dev_active s)
    (dev_played s) v (calls s).
Definition set_calls v (s : App) :=
  mkApp (timer_var s) (white_noise_var s) (_stream s) (remaining_seconds s)
    (timer_running s) (timer_id s) (noise_desired s) (after_next s)
    (after_pending s) (dev_faults s) (dev_next s) (dev_open s) (dev_active s)
    (dev_played s) (stdout s) v.

(** ** The monad: a method is a function from the state to an outcome and
    the state it leaves, whether it returned or raised. *)

Definition M (A : Type) : Type := App -> outcome A * App.

Definition ret {A} (a : A) : M A := fun s => (Return a, s).

Definition bind {A B} (m : M A) (k : A -> M B) : M B := fun s =>
  match m s with
  | (Return a, s1) => k a s1
  | (Raise e, s1) => (Raise e, s1)
  end.

Definition raise {A} (e : exn) : M A := fun s => (Raise e, s).

Definition gets {A} (f : App -> A) : M A := fun s => (Return (f s), s).

Definition modify (f : App -> App) : M unit := fun s => (Return tt, f s).

Declare Scope py_scope.
Delimit Scope py_scope with py.
Notation "x <- m ;; k" := (bind m (fun x => k))
  (at level 61, m at next level, right associativity) : py_scope.
Notation "m ;; k" := (bind m (fun _ => k))
  (at level 61, right associativity) : py_scope.
Open Scope py_scope.

(** [try: body finally: fin].  The [finally] block runs on both exits; an
    exception of the body is re-raised after it. *)
Definition try_finally {A} (body : M A) (fin : M unit) : M A := fun s =>
  match body s with
  | (Return a, s1) =>
      match fin s1 with
      | (Return _, s2) => (Return a, s2)
      | (Raise e, s2) => (Raise e, s2)
      end
  | (Raise e, s1) =>
      match fin s1 with
      | (Return _, s2) => (Raise e, s2)
      | (Raise e', s2) => (Raise e', s2)
      end
  end.

(** [try: body except Exception as exc: handler exc]. *)
Definition try_except {A} (body : M A) (handler : exn -> M A) : M A := fun s =>
  match body s with
  | (Return a, s1) => (Return a, s1)
  | (Raise e, s1) => handler e s1
  end.

(** [with self._lock: body].  The model runs the control thread only, which
    finds the lock free and releases it on either exit. *)
Definition with_lock {A} (body : M A) : M A := body.

Definition print (line : string) : M unit :=
  modify (fun s => set_stdout (stdout s ++ [line]) s).

Definition note (c : call) : M unit :=
  modify (fun s => set_calls (calls s ++ [c]) s).

(** ** The device layer ([sounddevice] over PortAudio)

    Each call first consumes the next entry of [dev_faults]. A call that
    raises leaves the device as it was. *)

Definition next_fault : M unit := fun s =>
  match dev_faults s with
  | [] => (Return tt, s)
  | None :: rest =>
      (Return tt, set_dev rest (dev_next s) (dev_open s) (dev_active s) s)
  | Some msg :: rest =>
      (Raise (Exception msg),
       set_dev rest (dev_next s) (dev_open s) (dev_active s) s)
  end.

Definition remove_nat (h : nat) (l : list nat) : list nat :=
  filter (fun x => negb (Nat.eqb x h)) l.

(** [sd.OutputStream(callback=..., channels=1, dtype="float32", samplerate=...)] *)
Definition sd_OutputStream : M nat :=
  next_fault ;;
  h <- gets dev_next ;;
  modify (fun s => set_dev (dev_faults s) (S h) (dev_open s ++ [h]) (dev_active s) s) ;;
  ret h.

Definition stream_start (h : nat) : M unit :=
  next_fault ;;
  modify (fun s => set_dev (dev_faults s) (dev_next s) (dev_open s) (dev_active s ++ [h]) s).

Definition stream_stop (h : nat) : M unit :=
  next_fault ;;
  modify (fun s => set_dev (dev_faults s) (dev_next s) (dev_open s) (remove_nat h (dev_active s)) s).

Definition stream_close (h : nat) : M unit :=
  next_fault ;;
  modify (fun s => set_dev (dev_faults s) (dev_next s)
                     (remove_nat h (dev_open s)) (remove_nat h (dev_active s)) s).

(** ** The Tk root *)

(** [root.after(ms, self._tick)] *)
Definition root_after (ms : Z) : M nat :=
  i <- gets after_next ;;
  modify (fun s => set_after (S i) (after_pending s ++ [(i, ms)]) s) ;;
  ret i.

(** [root.after_cancel(id)] *)
Definition root_after_cancel (i : nat) : M unit :=
  modify (fun s =>
    set_after (after_next s)
      (filter (fun e => negb (Nat.eqb (fst e) i)) (after_pending s)) s).

(** ** class WhiteNoisePlayer *)

Module WhiteNoisePlayer.

Definition start : M unit :=
  note NoiseStart ;;
  with_lock (
    st <- gets _stream ;;
    match st with
    | None =>
        h <- sd_OutputStream ;;
        modify (set_stream (Some h)) ;;
        stream_start h
    | Some _ => ret tt
    end).

Definition stop : M unit :=
  note NoiseStop ;;
  with_lock (
    st <- gets _stream ;;
    match st with
    | Some h =>
        try_finally
          (stream_stop h ;; stream_close h)
          (modify (set_stream None))
    | None => ret tt
    end).

End WhiteNoisePlayer.

(** ** class PomodoroApp *)

(** The format [{n:02}]: decimal, padded with a zero to two characters. *)
Definition fmt02 (n : Z) : string :=
  let d := NilZero.string_of_int (Z.to_int n) in
  if (0 <=? n) && (n <? 10) then String.append "0" d else d.

(** [divmod(max(remaining_seconds, 0), 60)] shown as ["{minutes:02}:{seconds:02}"]. *)
Definition timer_text (remaining : Z) : string :=
  let t := Z.max remaining 0 in
  (fmt02 (t / 60) ++ ":" ++ fmt02 (t mod 60))%string.

Module PomodoroApp.

Definition _update_timer_label : M unit :=
  r <- gets remaining_seconds ;;
  modify (set_timer_var (timer_text r)).

Definition _sync_noise_state : M unit :=
  running <- gets timer_running ;;
  desired <- gets noise_desired ;;
  toggle <- gets white_noise_var ;;
  if running && desired && toggle then
    try_except
      WhiteNoisePlayer.start
      (fun exc => print ("Unable to start white noise: " ++ exn_str exc)%string)
  else
    WhiteNoisePlayer.stop.

Definition on_noise_toggle : M unit := _sync_noise_state.

Definition _play_ding_async : M unit := note DingThread.

Definition _stop_timer_internal : M unit :=
  modify (set_timer_running false) ;;
  modify (set_noise_desired false) ;;
  tid <- gets timer_id ;;
  match tid with
  | Some i => root_after_cancel i ;; modify (set_timer_id None)
  | None => ret tt
  end ;;
  WhiteNoisePlayer.stop ;;
  modify (set_remaining_seconds 0) ;;
  _update_timer_label.

Definition _tick : M unit :=
  running <- gets timer_running ;;
  if negb running then ret tt
  else
    modify (fun s => set_remaining_seconds (remaining_seconds s - 1) s) ;;
    _update_timer_label ;;
    r <- gets remaining_seconds ;;
    if r <=? 0 then
      modify (set_timer_running false) ;;
      modify (set_timer_id None) ;;
      modify (set_noise_desired false) ;;
      WhiteNoisePlayer.stop ;;
      _play_ding_async
    else
      i <- root_after 1000 ;;
      modify (set_timer_id (Some i)).

Definition _start_timer (duration_seconds : Z) (wants_noise : bool) : M unit :=
  _stop_timer_internal ;;
  modify (set_remaining_seconds duration_seconds) ;;
  modify (set_timer_running true) ;;
  modify (set_noise_desired wants_noise) ;;
  _update_timer_label ;;
  _sync_noise_state ;;
  i <- root_after 1000 ;;
  modify (set_timer_id (Some i)).

Definition start_pomodoro : M unit :=
  _start_timer POMODORO_DURATION_SECONDS true.

Definition start_break : M unit :=
  _start_timer SHORT_BREAK_DURATION_SECONDS false.

(** The state [__init__] leaves, on a device whose coming calls behave as
    [faults] says. *)
Definition init (faults : list (option string)) : App :=
  mkApp "00:00" true None 0 false None false 0 [] faults 0 [] [] [] [] [].

End PomodoroApp.

(** ** The event loop

    [root.mainloop()] runs the callbacks: a scheduled [_tick] when its
    delay has elapsed (Tk drops the entry from its table, then calls it),
    and [on_noise_toggle] when the user clicks the check button (Tk flips
    [white_noise_var] first).  An exception that leaves a callback is
    reported by Tk and the loop goes on with the state the callback left. *)

Definition fire_tick : M unit :=
  p <- gets after_pending ;;
  match p with
  | [] => ret tt
  | _ :: rest =>
      modify (fun s => set_after (after_next s) rest s) ;;
      PomodoroApp._tick
  end.

Definition click_toggle : M unit :=
  modify (fun s => set_white_noise_var (negb (white_noise_var s)) s) ;;
  PomodoroApp.on_noise_toggle.

Inductive event : Type := Tick | StaleTick | Toggle.

Definition handler (e : event) : M unit :=
  match e with
  | Tick => fire_tick
  | StaleTick => PomodoroApp._tick
  | Toggle => click_toggle
  end.

Definition dispatch (s : App) (e : event) : App := snd (handler e s).

Definition mainloop (evs : list event) (s : App) : App :=
  fold_left dispatch evs s.

(** The state after [n] firings of the scheduled tick. *)
Fixpoint run_ticks (n : nat) (s : App) : App :=
  match n with
  | O => s
  | S k => snd (fire_tick (run_ticks k s))
  end.

(** ** Views of the state *)

(** The engine state of the spec, as the code has it: there is no flag of
    its own, the engine is Running exactly when a handle is held. *)
Inductive engine_state : Type := Idle | Running.

Definition engine (s : App) : engine_state :=
  match _stream s with None => Idle | Some _ => Running end.

(** The state without the observation log. *)
Definition program_state (s : App) : App := set_calls [] s.

(** No stream is open on the device but the one [_stream] refers to. *)
Definition no_leak (s : App) : Prop :=
  dev_open s = match _stream s with Some h => [h] | None => [] end.

(** The Tk table holds the tick [timer_id] names and nothing else, and a
    tick is scheduled only while the countdown runs. *)
Definition sched_ok (s : App) : Prop :=
  after_pending s = match timer_id s with Some i => [(i, 1000)] | None => [] end
  /\ (timer_id s <> None -> timer_running s = true).

(** The calls logged since the log was [before]. *)
Definition calls_since (before : list call) (s : App) : list call :=
  skipn (List.length before) (calls s).

(** ** Floating point and the numpy arrays

    Python floats and [float64] arrays are IEEE 754 binary64 values,
    [float32] arrays binary32 values; both are [spec_float] with the
    operations of the standard library's executable specification, which
    rounds to nearest, ties to even, as the hardware does. *)

Definition f64_mul : spec_float -> spec_float -> spec_float := SFmul 53 1024.
Definition f64_div : spec_float -> spec_float -> spec_float := SFdiv 53 1024.
Definition f64_add : spec_float -> spec_float -> spec_float := SFadd 53 1024.
Definition f64_sub : spec_float -> spec_float -> spec_float := SFsub 53 1024.
Definition f32_mul : spec_float -> spec_float -> spec_float := SFmul 24 128.

(** [float(n)] for a Python int. *)
Definition float_of_int (n : Z) : spec_float := binary_normalize 53 1024 n 0 false.

(** [int(x)]: truncation toward zero; [None] where Python raises
    (infinities and NaN). *)
Definition py_int (x : spec_float) : option Z :=
  match x with
  | S754_zero _ => Some 0
  | S754_finite s m e =>
      let a := match e with
               | Zneg p => Z.shiftr (Zpos m) (Zpos p)
               | _ => Z.shiftl (Zpos m) e
               end in
      Some (if s then - a else a)
  | _ => None
  end.

(** [x.astype(np.float32)] on one binary64 element. *)
Definition astype_float32 (x : spec_float) : spec_float :=
  match x with
  | S754_finite s m e => binary_round 24 128 s m e
  | _ => x
  end.

Definition is_zero (x : spec_float) : bool :=
  match x with S754_zero _ => true | _ => false end.

(** The literals of the source, as the binary64 values Python reads them
    to: 0.6, 0.3, 0.12, 1.0 and [np.pi]. *)
Definition DING_DURATION_SECONDS : spec_float :=
  S754_finite false 5404319552844595 (-53).
Definition lit_0_3 : spec_float := S754_finite false 5404319552844595 (-54).
Definition lit_0_12 : spec_float := S754_finite false 8646911284551352 (-56).
Definition lit_1_0 : spec_float := S754_finite false 4503599627370496 (-52).
Definition np_pi : spec_float := S754_finite false 7074237752028440 (-51).

Record NoiseProfile : Type := mkNoiseProfile {
  sample_rate : Z;
  amplitude : spec_float
}.

Definition WHITE_NOISE_PROFILE : NoiseProfile := mkNoiseProfile 44100 lit_0_12.

(** [np.arange(0, num)] *)
Fixpoint arange_from (start : Z) (len : nat) : list Z :=
  match len with
  | O => []
  | S k => start :: arange_from (start + 1) k
  end.

Definition np_arange (num : Z) : list Z := arange_from 0 (Z.to_nat num).

(** [np.linspace(start, stop, num, endpoint=False)] for [num > 0]: numpy
    computes [step = (stop - start) / num] and the array
    [arange(0, num) * step + start] (dividing before multiplying when the
    step underflows to zero). *)
Definition linspace_item (start delta div step : spec_float) (i : Z) : spec_float :=
  let y := float_of_int i in
  let y := if is_zero step then f64_mul (f64_div y div) delta
           else f64_mul y step in
  f64_add y start.

Definition np_linspace_open (start stop : spec_float) (num : Z) : list spec_float :=
  let delta := f64_sub stop start in
  let div := float_of_int num in
  let step := f64_div delta div in
  map (linspace_item start delta div step) (np_arange num).

(** [sd.play(data, samplerate, blocking=True)] *)
Definition sd_play (data : list spec_float) (samplerate : Z) : M unit :=
  next_fault ;;
  modify (fun s => set_dev_played (dev_played s ++ [(data, samplerate)]) s).

(** |x| <= |y| on zeros and finite values, exactly: mantissas compared at
    the smaller of the two exponents. *)
Definition SFabs_leb (x y : spec_float) : bool :=
  match x, y with
  | S754_zero _, (S754_zero _ | S754_finite _ _ _) => true
  | S754_finite _ mx ex, S754_finite _ my ey =>
      let e := Z.min ex ey in
      Zpos mx * 2 ^ (ex - e) <=? Zpos my * 2 ^ (ey - e)
  | _, _ => false
  end.

Section Chime.

(** [np.sin] on one binary64 element: the platform's sine, which the
    repository does not contain. *)
Variable np_sin : spec_float -> spec_float.

(** [int(WHITE_NOISE_PROFILE.sample_rate * DING_DURATION_SECONDS)] *)
Definition ding_samples : option Z :=
  py_int (f64_mul (float_of_int (sample_rate WHITE_NOISE_PROFILE))
                  DING_DURATION_SECONDS).

Definition ding_t (samples : Z) : list spec_float :=
  np_linspace_open (S754_zero false) DING_DURATION_SECONDS samples.

(** [2 * np.pi * DING_FREQUENCY_HZ], evaluated left to right. *)
Definition ding_omega : spec_float :=
  f64_mul (f64_mul (float_of_int 2) np_pi) (float_of_int DING_FREQUENCY_HZ).

Definition ding_waveform (samples : Z) : list spec_float :=
  map (fun t => f64_mul lit_0_3 (np_sin (f64_mul ding_omega t))) (ding_t samples).

(** The body of the chime thread. *)
Definition _play_ding : M unit :=
  match ding_samples with
  | None => raise (Exception "cannot convert float to integer")
  | Some samples =>
      try_except
        (sd_play (map astype_float32 (ding_waveform samples))
                 (sample_rate WHITE_NOISE_PROFILE))
        (fun exc => print ("Unable to play ding: " ++ exn_str exc)%string)
  end.

End Chime.

(** [str(n)] for a natural number, in decimal. *)
Definition py_str_nat (n : nat) : string :=
  NilEmpty.string_of_uint (Nat.to_uint n).

(** ** The audio callback

    [rng i] is the [i]-th value [np.random.uniform(-1.0, 1.0, frames)]
    draws in this call, a binary64 value; [outdata] is the single-channel
    float32 buffer PortAudio hands over, its rows.  The result is the lines
    printed, which are printed before the assignment is attempted, and the
    outcome of the assignment [outdata[:, 0] = ...]: the column as the
    callback leaves it, or the [ValueError] (an [Exception]) that numpy
    raises, the buffer then being left as it was.  numpy assigns an array
    of as many elements as the column has rows element by element,
    broadcasts an array of one element over every row, and raises on any
    other shape. *)
Definition _callback (profile : NoiseProfile) (rng : nat -> spec_float)
    (outdata : list spec_float) (frames : nat) (status : string)
    : list string * outcome (list spec_float) :=
  let printed :=
    if String.eqb status EmptyString then []
    else [("Audio stream warning: " ++ status)%string] in
  let noise := map astype_float32 (map rng (seq 0 frames)) in
  let scaled := map (fun x => f32_mul x (astype_float32 (amplitude profile))) noise in
  let rows := List.length outdata in
  (printed,
   if Nat.eqb (List.length scaled) rows then Return scaled
   else match scaled with
        | [x] => Return (map (fun _ => x) outdata)
        | _ => Raise (Exception
                 ("could not broadcast input array from shape ("
                  ++ py_str_nat (List.length scaled) ++ ",) into shape ("
                  ++ py_str_nat rows ++ ",)")%string)
        end).

(** The countdown between start and expiry: [k] firings after a start
    with [r] seconds, [k < r], leave a running timer with [r - k] seconds
    and one tick in the Tk table, and touch neither the player, the
    device, the toggle nor the log. *)
Record counting (s0 s : App) (k : nat) : Prop := mkCounting {
  cnt_running : timer_running s = true;
  cnt_remaining : remaining_seconds s = remaining_seconds s0 - Z.of_nat k;
  cnt_pending : after_pending s = [(Nat.pred (after_next s), 1000)];
  cnt_timer_id : timer_id s = Some (Nat.pred (after_next s));
  cnt_next : after_next s = (after_next s0 + k)%nat;
  cnt_calls : calls s = calls s0;
  cnt_stream : _stream s = _stream s0;
  cnt_faults : dev_faults s = dev_faults s0;
  cnt_open : dev_open s = dev_open s0;
  cnt_active : dev_active s = dev_active s0;
  cnt_stdout : stdout s = stdout s0;
  cnt_toggle : white_noise_var s = white_noise_var s0;
  cnt_desired : noise_desired s = noise_desired s0
}.

(** Nothing is asked of the player's [start], and the device constructs no
    stream, between two states. *)
Definition no_start_between (s s' : App) : Prop :=
  count_call NoiseStart (calls s') = count_call NoiseStart (calls s) /\
  dev_next s' = dev_next s.

(** [lo / 10^d <= x <= hi / 10^d] for a positive finite [x], exactly: how
    a binary literal is read against its decimal digits. *)
Definition decimal_between (lo hi d : Z) (x : spec_float) : bool :=
  match x with
  | S754_finite false m e =>
      let num := Zpos m * 2 ^ Z.max e 0 * 10 ^ d in
      let den := 2 ^ Z.max (- e) 0 in
      (lo * den <=? num) && (num <=? hi * den)
  | _ => false
  end.

(** The step and the instants of [np.linspace(0, 0.6, 26460, endpoint=False)]. *)
Definition chime_step : spec_float :=
  f64_div (f64_sub DING_DURATION_SECONDS (S754_zero false)) (float_of_int 26460).

Definition chime_instant (step : spec_float) (i : Z) : spec_float :=
  f64_add (f64_mul (float_of_int i) step) (S754_zero false).

Definition chime_instant_ok (step : spec_float) (i : Z) : bool :=
  let t := chime_instant step i in
  SFleb (S754_zero false) t &&
  SFltb t DING_DURATION_SECONDS &&
  SFltb t (chime_instant step (i + 1)) &&
  SFeqb t (f64_mul (float_of_int i) step).

(** The float32 value 1.0, and the float32 values a buffer can hold:
    zeros and the finite numbers whose mantissa and exponent are those of
    the binary32 format. *)
Definition f32_one : spec_float := S754_finite false 8388608 (-23).

Definition is_float32 (x : spec_float) : bool :=
  match x with
  | S754_zero _ => true
  | S754_finite _ m e => bounded 24 128 m e
  | _ => false
  end.

(** What [k] one-bit right shifts of the mantissa [M] leave: the quotient
    by [2^k], and clear round and sticky bits when nothing was lost. *)
Definition shr_inv (M : Z) (k : Z) (r : shr_record) : Prop :=
  shr_m r = M / 2 ^ k /\
  (M mod 2 ^ k = 0 -> shr_r r = false /\ shr_s r = false).

(** What the expiring tick logs after the player's [stop]: the chime
    thread, if [stop] returned. *)
Definition chime_if_returned (r : outcome unit) : list call :=
  match r with
  | Return _ => [DingThread]
  | Raise _ => []
  end.

(** ** The window and the commands of a session

    [root.destroy()] and the end of [mainloop] are one flag beside the
    application state.  A command is what Tk calls back: the two buttons,
    the check button, the scheduled tick when its delay has elapsed, and
    the window manager's close request. *)

Record Window : Type := mkWindow {
  win_app : App;
  destroyed : bool
}.

(** [PomodoroApp.on_close]: [root.destroy()] is reached only when the two
    calls before it have returned. *)
Definition on_close (w : Window) : outcome unit * Window :=
  match (PomodoroApp._stop_timer_internal ;; WhiteNoisePlayer.stop) (win_app w) with
  | (Return _, a) => (Return tt, mkWindow a true)
  | (Raise e, a) => (Raise e, mkWindow a (destroyed w))
  end.

Inductive command : Type :=
| ClickPomodoro
| ClickBreak
| ClickToggle
| TimerFires
| CloseWindow.

Definition in_window (m : M unit) (w : Window) : outcome unit * Window :=
  (fst (m (win_app w)), mkWindow (snd (m (win_app w))) (destroyed w)).

(** One callback; none runs once the window is destroyed. *)
Definition perform (c : command) (w : Window) : outcome unit * Window :=
  if destroyed w then (Return tt, w)
  else match c with
       | ClickPomodoro => in_window PomodoroApp.start_pomodoro w
       | ClickBreak => in_window PomodoroApp.start_break w
       | ClickToggle => in_window click_toggle w
       | TimerFires => in_window fire_tick w
       | CloseWindow => on_close w
       end.

(** [PomodoroApp.start], that is [root.mainloop()], over the commands that
    arrive; an exception that leaves a callback is reported by Tk and the
    loop goes on. *)
Definition session (cmds : list command) (w : Window) : Window :=
  fold_left (fun w c => snd (perform c w)) cmds w.

(** [main()]: construct the application and run its loop. *)
Definition main (faults : list (option string)) (cmds : list command) : Window :=
  session cmds (mkWindow (PomodoroApp.init faults) false).

(** The part of [_start_timer] that follows the reset. *)
Definition start_timer_body (duration_seconds : Z) (wants_noise : bool) : M unit :=
  modify (set_remaining_seconds duration_seconds) ;;
  modify (set_timer_running true) ;;
  modify (set_noise_desired wants_noise) ;;
  PomodoroApp._update_timer_label ;;
  PomodoroApp._sync_noise_state ;;
  i <- root_after 1000 ;;
  modify (set_timer_id (Some i)).

(** What every state of a session satisfies, whatever the device does. *)
Record app_inv (s : App) : Prop := mkAppInv {
  inv_sched : sched_ok s;
  inv_label : timer_var s = timer_text (remaining_seconds s);
  inv_range : 0 <= remaining_seconds s <= POMODORO_DURATION_SECONDS;
  inv_running : timer_running s = true ->
                timer_id s <> None /\ 0 < remaining_seconds s;
  inv_noise : _stream s <> None ->
              timer_running s = true /\ noise_desired s = true /\
              white_noise_var s = true;
  inv_desired : noise_desired s = true -> timer_running s = true
}.

(** What every state of a session satisfies on a device that raises
    nothing. *)
Record healthy_inv (s : App) : Prop := mkHealthyInv {
  hi_faults : dev_faults s = [];
  hi_desire : timer_running s && noise_desired s && white_noise_var s = true ->
              _stream s <> None;
  hi_open : no_leak s;
  hi_active : dev_active s = dev_open s;
  hi_idle : timer_running s = false -> remaining_seconds s = 0
}.

(** Reading a label back: two digits, a colon, two digits below 60. *)
Definition digit_of (c : ascii) : option Z :=
  let n := Z.of_nat (nat_of_ascii c) in
  if (48 <=? n) && (n <=? 57) then Some (n - 48) else None.

Definition label_seconds (t : string) : option Z :=
  match t with
  | String a (String b (String c (String d (String e EmptyString)))) =>
      match digit_of a, digit_of b, digit_of d, digit_of e with
      | Some x, Some y, Some z, Some u =>
          if Ascii.eqb c ":"%char && (10 * z + u <? 60)
          then Some ((10 * x + y) * 60 + (10 * z + u)) else None
      | _, _, _, _ => None
      end
  | _ => None
  end.

Definition label_ok (r : Z) : bool :=
  match label_seconds (timer_text r) with
  | Some r' => r' =? r
  | None => false
  end.

(** ** Proof tools *)

Ltac py_unfold :=
  cbv [PomodoroApp._tick PomodoroApp._stop_timer_internal
       PomodoroApp._start_timer PomodoroApp.start_pomodoro
       PomodoroApp.start_break PomodoroApp._sync_noise_state
       PomodoroApp.on_noise_toggle PomodoroApp._play_ding_async
       PomodoroApp._update_timer_label
       WhiteNoisePlayer.start WhiteNoisePlayer.stop
       fire_tick click_toggle handler dispatch
       sd_OutputStream stream_start stream_stop stream_close next_fault
       root_after root_after_cancel
       with_lock try_finally try_except print note
       bind ret gets modify raise
       set_timer_var set_white_noise_var set_stream set_remaining_seconds
       set_timer_running set_timer_id set_noise_desired set_after set_dev
       set_dev_played set_stdout set_calls program_state engine no_leak
       timer_var white_noise_var _stream remaining_seconds timer_running
       timer_id noise_desired after_next after_pending dev_faults dev_next
       dev_open dev_active dev_played stdout calls fst snd negb andb] in *.

Ltac break_faults :=
  repeat match goal with
  | |- context [match ?l with [] => _ | _ :: _ => _ end] =>
      is_var l; destruct l as [|[?|] ?]
  end.

Lemma remove_nat_idem h l : remove_nat h (remove_nat h l) = remove_nat h l.
Proof.
  unfold remove_nat. induction l as [|x l IH]; [reflexivity|].
  cbn. destruct (Nat.eqb x h) eqn:E; cbn; [exact IH|].
  rewrite E. cbn. now rewrite IH.
Qed.

Lemma count_call_app c l1 l2 :
  count_call c (l1 ++ l2) = (count_call c l1 + count_call c l2)%nat.
Proof. unfold count_call. now rewrite filter_app, length_app. Qed.

(** ** WhiteNoisePlayer.stop *)

Lemma stop_stream_none s : _stream (snd (WhiteNoisePlayer.stop s)) = None.
Proof.
  destruct s as [tv wv st rs tr ti nd an ap df dn dop da dp so cs].
  py_unfold. destruct st as [h|]; [|reflexivity].
  destruct df as [|[m|] [|[m'|] df]]; reflexivity.
Qed.

(** C10.  Whatever the engine state and whatever the device does, when
    [WhiteNoisePlayer.stop] ends, by returning or by an exception of the
    device's [stop] or [close], [_stream] is [None] and the engine is Idle;
    a [start] that follows calls the stream constructor again and, when
    that call succeeds, holds the stream the device has just made. *)
Theorem stop_always_clears_handle (s : App) :
  let s1 := snd (WhiteNoisePlayer.stop s) in
  _stream s1 = None /\ engine s1 = Idle /\
  (hd None (dev_faults s1) = None ->
     let s2 := snd (WhiteNoisePlayer.start s1) in
     _stream s2 = Some (dev_next s1) /\
     dev_next s2 = S (dev_next s1) /\
     dev_open s2 = dev_open s1 ++ [dev_next s1]).
Proof.
  cbv zeta. pose proof (stop_stream_none s) as Hn.
  set (s1 := snd (WhiteNoisePlayer.stop s)) in *. clearbody s1.
  split; [exact Hn|]. split; [unfold engine; now rewrite Hn|].
  destruct s1 as [tv wv st rs tr ti nd an ap df dn dop da dp so cs].
  py_unfold. subst st. intros Hd.
  destruct df as [|[m|] df]; cbn in Hd; try discriminate.
  - repeat split.
  - destruct df as [|[m'|] df]; repeat split.
Qed.

Lemma stop_always_clears_handle_witness :
  let s := snd (PomodoroApp.start_pomodoro
                  (PomodoroApp.init [None; None; Some "device lost"%string])) in
  _stream s = Some 0%nat /\
  fst (WhiteNoisePlayer.stop s) = Raise (Exception "device lost") /\
  _stream (snd (WhiteNoisePlayer.stop s)) = None /\
  _stream (snd (WhiteNoisePlayer.start (snd (WhiteNoisePlayer.stop s)))) = Some 1%nat.
Proof.
  cbv zeta.
  pose proof (stop_always_clears_handle
    (snd (PomodoroApp.start_pomodoro
            (PomodoroApp.init [None; None; Some "device lost"%string])))) as H.
  cbv zeta in H. destruct H as (H1 & _ & H3).
  split; [reflexivity|]. split; [reflexivity|]. split; [exact H1|].
  exact (proj1 (H3 eq_refl)).
Defined.

(** ** WhiteNoisePlayer.start *)

Lemma start_running s h :
  _stream s = Some h ->
  WhiteNoisePlayer.start s = (Return tt, set_calls (calls s ++ [NoiseStart]) s).
Proof. destruct s; py_unfold; intros ->; reflexivity. Qed.

Lemma start_no_leak s :
  no_leak s -> no_leak (snd (WhiteNoisePlayer.start s)).
Proof.
  destruct s as [tv wv st rs tr ti nd an ap df dn dop da dp so cs].
  py_unfold. destruct st as [h|]; [exact (fun H => H)|].
  intros ->. destruct df as [|[m|] [|[m'|] df]]; reflexivity.
Qed.

(** C3.  For every engine state and every behaviour of the device,
    [start] twice in a row ends as [start] once does: same outcome, same
    state (the observation log apart, which counts two invocations; a
    first call that raises is not followed by the second).  When
    a handle is already held (Running) a call returns at once with the
    whole state as it was, so the device is asked for no second stream; and
    the device never holds an open stream that [_stream] does not refer
    to, before and after, so no handle leaks.  The engine is Running
    exactly when the handle is held. *)
Theorem start_twice_is_start_once (s : App) :
  let once := WhiteNoisePlayer.start s in
  let twice := (WhiteNoisePlayer.start ;; WhiteNoisePlayer.start) s in
  fst twice = fst once /\
  program_state (snd twice) = program_state (snd once) /\
  (forall h, _stream s = Some h ->
     fst once = Return tt /\ program_state (snd once) = program_state s) /\
  (no_leak s -> no_leak (snd once) /\ no_leak (snd twice)) /\
  (engine (snd twice) = Running <-> _stream (snd twice) <> None).
Proof.
  cbv zeta. split; [|split; [|split; [|split]]].
  - destruct s as [tv wv st rs tr ti nd an ap df dn dop da dp so cs].
    py_unfold. destruct st as [h|]; [reflexivity|].
    destruct df as [|[m|] [|[m'|] df]]; reflexivity.
  - destruct s as [tv wv st rs tr ti nd an ap df dn dop da dp so cs].
    py_unfold. destruct st as [h|]; [reflexivity|].
    destruct df as [|[m|] [|[m'|] df]]; reflexivity.
  - intros h Hh. rewrite (start_running s h Hh). split; [reflexivity|].
    destruct s; reflexivity.
  - intros Hl. split; [now apply start_no_leak|].
    unfold bind. destruct (WhiteNoisePlayer.start s) as [[[]|e] s1] eqn:E.
    + apply start_no_leak. change s1 with (snd (Return tt, s1)).
      rewrite <- E. now apply start_no_leak.
    + change s1 with (snd (@Raise unit e, s1)).
      rewrite <- E. now apply start_no_leak.
  - unfold engine. destruct (_stream _); split; congruence.
Qed.

Lemma start_twice_is_start_once_witness :
  let s := PomodoroApp.init [] in
  no_leak s /\
  _stream (snd ((WhiteNoisePlayer.start ;; WhiteNoisePlayer.start) s)) = Some 0%nat /\
  dev_open (snd ((WhiteNoisePlayer.start ;; WhiteNoisePlayer.start) s)) = [0%nat] /\
  no_leak (snd ((WhiteNoisePlayer.start ;; WhiteNoisePlayer.start) s)).
Proof.
  cbv zeta.
  pose proof (start_twice_is_start_once (PomodoroApp.init [])) as H.
  cbv zeta in H. destruct H as (_ & _ & _ & H & _).
  split; [reflexivity|]. split; [reflexivity|]. split; [reflexivity|].
  exact (proj2 (H eq_refl)).
Defined.

(** What holds of a failing [start]: a constructor that raises leaves no
    handle, and the guard of [_sync_noise_state] lets no exception of
    [start] out. *)
Lemma start_constructor_fails s msg rest :
  _stream s = None -> dev_faults s = Some msg :: rest ->
  fst (WhiteNoisePlayer.start s) = Raise (Exception msg) /\
  _stream (snd (WhiteNoisePlayer.start s)) = None /\
  dev_open (snd (WhiteNoisePlayer.start s)) = dev_open s.
Proof.
  destruct s as [tv wv st rs tr ti nd an ap df dn dop da dp so cs].
  py_unfold. intros -> ->. repeat split.
Qed.

Lemma sync_start_branch_returns s :
  timer_running s = true -> noise_desired s = true -> white_noise_var s = true ->
  fst (PomodoroApp._sync_noise_state s) = Return tt.
Proof.
  destruct s as [tv wv st rs tr ti nd an ap df dn dop da dp so cs].
  py_unfold. intros -> -> ->. destruct st as [h|]; [reflexivity|].
  destruct df as [|[m|] [|[m'|] df]]; reflexivity.
Qed.

(** C1, at the input where it fails.  The user starts a pomodoro on a
    device that constructs the output stream and then raises from the
    stream's [start()].  The guard of [_sync_noise_state] catches the
    exception and prints it, and [start_pomodoro] returns; but [_stream]
    holds the stream that never started, not [None]: the device has it
    open and inactive.  From then on [start] finds a handle and does
    nothing, so a later sync on a device that has recovered starts no
    noise either. *)
Theorem start_failure_keeps_half_open_handle :
  let s := snd (PomodoroApp.start_pomodoro
                  (PomodoroApp.init [None; Some "Error starting stream"%string])) in
  fst (PomodoroApp.start_pomodoro
         (PomodoroApp.init [None; Some "Error starting stream"%string])) = Return tt /\
  stdout s = ["Unable to start white noise: Error starting stream"%string] /\
  _stream s = Some 0%nat /\ engine s = Running /\
  dev_open s = [0%nat] /\ dev_active s = [] /\ dev_faults s = [] /\
  dev_active (snd (PomodoroApp._sync_noise_state s)) = [].
Proof. cbv zeta. repeat split. Qed.

(** C9.  With [timer_running] false, [_tick] returns at once and the whole
    state is as it was: remaining seconds, label, [timer_id], the Tk
    table (no tick scheduled), the player and the device. *)
Theorem stale_tick_is_noop (s : App) :
  timer_running s = false -> PomodoroApp._tick s = (Return tt, s).
Proof. destruct s; py_unfold; intros ->; reflexivity. Qed.

Lemma stale_tick_is_noop_witness :
  let s := snd (PomodoroApp._stop_timer_internal
                  (snd (PomodoroApp.start_pomodoro (PomodoroApp.init [])))) in
  timer_running s = false /\ PomodoroApp._tick s = (Return tt, s).
Proof.
  cbv zeta. split; [reflexivity|].
  apply stale_tick_is_noop. reflexivity.
Defined.

(** C4.  The box is checked and the user unchecks it: within the handler
    the player's [stop] is invoked once and [_stream] is [None] when it
    ends, whatever the device does; the remaining seconds, the running
    flag, [timer_id], the Tk table, the label and [noise_desired] are
    untouched.  On a device that raises nothing the handler returns and
    the stream is closed. *)
Theorem toggle_off_stops_noise_only (s : App) :
  white_noise_var s = true ->
  let r := fst (click_toggle s) in
  let s' := snd (click_toggle s) in
  white_noise_var s' = false /\
  _stream s' = None /\ engine s' = Idle /\
  calls_since (calls s) s' = [NoiseStop] /\
  remaining_seconds s' = remaining_seconds s /\
  timer_running s' = timer_running s /\
  timer_id s' = timer_id s /\
  after_pending s' = after_pending s /\ after_next s' = after_next s /\
  timer_var s' = timer_var s /\ noise_desired s' = noise_desired s /\
  (dev_faults s = [] ->
     r = Return tt /\
     forall h, _stream s = Some h ->
       dev_open s' = remove_nat h (dev_open s) /\
       dev_active s' = remove_nat h (dev_active s)).
Proof.
  cbv zeta. intros Hv.
  destruct s as [tv wv st rs tr ti nd an ap df dn dop da dp so cs].
  cbn in Hv. subst wv.
  assert (Hc : forall l : list call, skipn (List.length cs) (cs ++ l) = l).
  { intros l. rewrite skipn_app, skipn_all, Nat.sub_diag. reflexivity. }
  unfold calls_since.
  destruct tr, nd; py_unfold; destruct st as [h|].
  all: try (destruct df as [|[m|] [|[m'|] df]]); cbn; rewrite Hc;
    repeat split; intros; try discriminate;
    repeat match goal with
           | H : Some _ = Some _ |- _ => injection H as <-
           end; rewrite ?remove_nat_idem; reflexivity.
Qed.

Lemma toggle_off_stops_noise_only_witness :
  let s := run_ticks 758 (snd (PomodoroApp.start_pomodoro (PomodoroApp.init []))) in
  white_noise_var s = true /\ timer_running s = true /\
  remaining_seconds s = 742 /\ _stream s = Some 0%nat /\
  _stream (snd (click_toggle s)) = None /\
  remaining_seconds (snd (click_toggle s)) = 742.
Proof.
  cbv zeta.
  pose proof (toggle_off_stops_noise_only
    (run_ticks 758 (snd (PomodoroApp.start_pomodoro (PomodoroApp.init []))))
    ltac:(vm_compute; reflexivity)) as H.
  cbv zeta in H. destruct H as (_ & H2 & _ & _ & H5 & _).
  split; [vm_compute; reflexivity|].
  split; [vm_compute; reflexivity|].
  split; [vm_compute; reflexivity|].
  split; [vm_compute; reflexivity|].
  split; [exact H2|].
  rewrite H5. vm_compute. reflexivity.
Defined.

(** ** PomodoroApp._stop_timer_internal *)


Lemma skipn_calls (cs l : list call) : skipn (List.length cs) (cs ++ l) = l.
Proof. rewrite skipn_app, skipn_all, Nat.sub_diag. reflexivity. Qed.



(** ** PomodoroApp._tick *)

Lemma calls_since_app before seg s :
  calls s = before ++ seg -> calls_since before s = seg.
Proof. unfold calls_since. intros ->. apply skipn_calls. Qed.

Lemma count_stop_expiry (r : outcome unit) :
  count_call NoiseStop (NoiseStop :: chime_if_returned r) = 1%nat /\
  count_call NoiseStart (NoiseStop :: chime_if_returned r) = 0%nat.
Proof. destruct r; split; reflexivity. Qed.

Lemma tick_expires (s : App) :
  timer_running s = true -> remaining_seconds s - 1 <= 0 ->
  let r := fst (PomodoroApp._tick s) in
  let s' := snd (PomodoroApp._tick s) in
  remaining_seconds s' = remaining_seconds s - 1 /\
  timer_var s' = timer_text (remaining_seconds s - 1) /\
  timer_running s' = false /\ noise_desired s' = false /\
  timer_id s' = None /\
  after_pending s' = after_pending s /\ after_next s' = after_next s /\
  _stream s' = None /\
  calls s' = calls s ++ NoiseStop :: chime_if_returned r /\
  (_stream s = None \/ dev_faults s = [] -> r = Return tt).
Proof.
  cbv zeta.
  destruct s as [tv wv st rs tr ti nd an ap df dn dop da dp so cs].
  cbn [timer_running remaining_seconds]. intros -> Hle.
  apply Z.leb_le in Hle.
  py_unfold. rewrite Hle.
  destruct st as [h|]; try (destruct df as [|[m|] [|[m'|] df]]);
    cbn; rewrite <- ?app_assoc;
    repeat split; intros; try discriminate;
    repeat match goal with H : _ \/ _ |- _ => destruct H end;
    try discriminate; reflexivity.
Qed.

Lemma tick_continues (s : App) :
  timer_running s = true -> 0 < remaining_seconds s - 1 ->
  PomodoroApp._tick s =
  (Return tt,
   set_timer_id (Some (after_next s))
     (set_after (S (after_next s)) (after_pending s ++ [(after_next s, 1000)])
        (set_timer_var (timer_text (remaining_seconds s - 1))
           (set_remaining_seconds (remaining_seconds s - 1) s)))).
Proof.
  destruct s as [tv wv st rs tr ti nd an ap df dn dop da dp so cs].
  cbn [timer_running remaining_seconds]. intros -> Hlt.
  apply Z.leb_gt in Hlt.
  py_unfold. rewrite Hlt. reflexivity.
Qed.

Lemma fire_tick_single s e :
  after_pending s = [e] ->
  fire_tick s = PomodoroApp._tick (set_after (after_next s) [] s).
Proof. intros H. unfold fire_tick, bind, gets, modify. now rewrite H. Qed.

Lemma fire_tick_nothing s :
  after_pending s = [] -> fire_tick s = (Return tt, s).
Proof. intros H. unfold fire_tick, bind, gets, ret. now rewrite H. Qed.

Lemma run_ticks_nothing n s :
  after_pending s = [] -> run_ticks n s = s.
Proof.
  intros H. induction n as [|n IH]; [reflexivity|].
  cbn [run_ticks]. rewrite IH, fire_tick_nothing; [reflexivity|exact H].
Qed.

Lemma counting_step s0 s k :
  counting s0 s k -> Z.of_nat k + 1 < remaining_seconds s0 ->
  fst (fire_tick s) = Return tt /\ counting s0 (snd (fire_tick s)) (S k).
Proof.
  intros [] Hlt.
  rewrite (fire_tick_single s _ cnt_pending0), tick_continues.
  - destruct s as [tv wv st rs tr ti nd an ap df dn dop da dp so cs].
    cbn in *. split; [reflexivity|].
    constructor; cbn; try assumption; try reflexivity; lia.
  - destruct s; assumption.
  - destruct s; cbn in *; lia.
Qed.

Lemma counting_run s0 k :
  counting s0 s0 0 -> Z.of_nat k < remaining_seconds s0 ->
  counting s0 (run_ticks k s0) k.
Proof.
  intros H0. induction k as [|k IH]; intros Hlt; [exact H0|].
  cbn [run_ticks]. apply counting_step; [apply IH|]; lia.
Qed.

Lemma start_pomodoro_counting s :
  sched_ok s -> fst (PomodoroApp.start_pomodoro s) = Return tt ->
  let s0 := snd (PomodoroApp.start_pomodoro s) in
  remaining_seconds s0 = 1500 /\ timer_var s0 = "25:00"%string /\
  noise_desired s0 = true /\
  calls s0 = calls s ++
             [NoiseStop; if white_noise_var s then NoiseStart else NoiseStop] /\
  counting s0 s0 0.
Proof.
  cbv zeta. unfold sched_ok.
  destruct s as [tv wv st rs tr ti nd an ap df dn dop da dp so cs].
  cbn [after_pending timer_id timer_running]. intros [Hp _] Hr.
  assert (P : forall s0 : App,
    timer_running s0 = true -> after_pending s0 = [(an, 1000)] ->
    timer_id s0 = Some an -> after_next s0 = S an ->
    counting s0 s0 0).
  { intros s0 H1 H2 H3 H4. constructor; rewrite ?H4; cbn; try reflexivity;
      try assumption; lia. }
  subst ap. revert Hr. py_unfold.
  destruct ti as [i|]; cbn -[timer_text]; rewrite ?Nat.eqb_refl; cbn -[timer_text];
    destruct st as [h|]; try (destruct df as [|[m|] [|[m'|] df]]);
    cbn -[timer_text]; try discriminate; intros _;
    destruct wv; cbn -[timer_text];
    try (destruct df as [|[m1|] [|[m2|] df]]); cbn -[timer_text];
    rewrite <- ?app_assoc;
    (split; [reflexivity|]); (split; [reflexivity|]); (split; [reflexivity|]);
    (split; [reflexivity|]);
    apply P; reflexivity.
Qed.

(** A countdown of [n + 1] seconds: [n] firings that only count, then one
    that expires. *)
Lemma countdown_expires_once (s0 : App) (n : nat) :
  counting s0 s0 0 -> remaining_seconds s0 = Z.of_nat (S n) ->
  let r := fst (fire_tick (run_ticks n s0)) in
  let s' := run_ticks (S n) s0 in
  (forall k, (k <= n)%nat ->
     calls (run_ticks k s0) = calls s0 /\
     timer_running (run_ticks k s0) = true /\
     remaining_seconds (run_ticks k s0) = remaining_seconds s0 - Z.of_nat k) /\
  calls s' = calls s0 ++ NoiseStop :: chime_if_returned r /\
  (dev_faults s0 = [] -> r = Return tt) /\
  timer_running s' = false /\ remaining_seconds s' = 0 /\
  timer_id s' = None /\ _stream s' = None /\ after_pending s' = [] /\
  (forall m, run_ticks m s' = s').
Proof.
  intros Hc0 Hrem. cbv zeta.
  assert (Hk : forall k, (k <= n)%nat -> counting s0 (run_ticks k s0) k).
  { intros k Hle. apply counting_run; [exact Hc0|lia]. }
  pose proof (Hk n (le_n _)) as Hc.
  cbn [run_ticks]. generalize dependent (run_ticks n s0). intros s1 Hc.
  destruct Hc as [c1 c2 c3 c4 c5 c6 c7 c8 c9 c10 c11 c12 c13].
  rewrite (fire_tick_single s1 _ c3).
  set (s1' := set_after (after_next s1) [] s1).
  assert (Hrun' : timer_running s1' = true) by (destruct s1; exact c1).
  assert (Hr1 : remaining_seconds s1' = 1).
  { replace (remaining_seconds s1') with (remaining_seconds s1)
      by (destruct s1; reflexivity). rewrite c2, Hrem. lia. }
  assert (Hrem' : remaining_seconds s1' - 1 <= 0) by lia.
  assert (Hcalls' : calls s1' = calls s0) by (destruct s1; exact c6).
  assert (Hdf' : dev_faults s1' = dev_faults s0) by (destruct s1; exact c8).
  assert (Hap' : after_pending s1' = []) by (destruct s1; reflexivity).
  pose proof (tick_expires s1' Hrun' Hrem') as H. cbv zeta in H.
  rewrite Hcalls', Hap', Hdf' in H.
  destruct H as (H1 & _ & H3 & H4 & H5 & H6 & H7 & H8 & H9 & H10).
  split.
  { intros k Hle. destruct (Hk k Hle) as [d1 d2 d3 d4 d5 d6 d7 d8 d9 d10 d11 d12 d13].
    rewrite d6, d1, d2. repeat split. }
  split; [exact H9|].
  split; [intros Hd; apply H10; right; exact Hd|].
  split; [exact H3|].
  split; [rewrite H1, Hr1; reflexivity|].
  split; [exact H5|]. split; [exact H8|]. split; [exact H6|].
  intros m. apply run_ticks_nothing. exact H6.
Qed.

(** C2, as amended.  One tick of a running timer takes exactly one second
    off [remaining_seconds].  If the result is at most 0 the tick sets
    [timer_running] and [noise_desired] to false and [timer_id] to [None],
    schedules nothing, invokes the player's [stop] exactly once (leaving
    [_stream] at [None]) and, that call having returned, spawns the chime
    exactly once; otherwise it changes only the seconds and the label and
    schedules itself at 1000 ms.  Consequently, once [start_pomodoro] has
    returned (1500 s), the first 1499 firings log no call at all and the
    1500th logs one [stop], which returns on a device that raises nothing,
    and then one chime; the timer is then stopped at 0 with an empty Tk
    table, so that no further tick ever fires.  [start_pomodoro] itself
    invokes [stop] before the countdown begins, once with the toggle on
    and twice with it off, so that from the click to the expiry [stop] is
    invoked twice, or three times. *)
Theorem tick_counts_down_and_expires_once :
  (forall s : App, timer_running s = true ->
     let r := fst (PomodoroApp._tick s) in
     let s' := snd (PomodoroApp._tick s) in
     remaining_seconds s' = remaining_seconds s - 1 /\
     (remaining_seconds s' <= 0 ->
        timer_running s' = false /\ noise_desired s' = false /\
        timer_id s' = None /\
        after_pending s' = after_pending s /\ after_next s' = after_next s /\
        _stream s' = None /\
        calls s' = calls s ++ NoiseStop :: chime_if_returned r /\
        (_stream s = None \/ dev_faults s = [] -> r = Return tt)) /\
     (0 < remaining_seconds s' ->
        r = Return tt /\
        s' = set_timer_id (Some (after_next s))
               (set_after (S (after_next s))
                  (after_pending s ++ [(after_next s, 1000)])
                  (set_timer_var (timer_text (remaining_seconds s - 1))
                     (set_remaining_seconds (remaining_seconds s - 1) s))))) /\
  (forall s : App, sched_ok s ->
     fst (PomodoroApp.start_pomodoro s) = Return tt ->
     let s0 := snd (PomodoroApp.start_pomodoro s) in
     let r := fst (fire_tick (run_ticks 1499 s0)) in
     let s' := run_ticks 1500 s0 in
     remaining_seconds s0 = 1500 /\ timer_running s0 = true /\
     calls s0 = calls s ++
                [NoiseStop; if white_noise_var s then NoiseStart else NoiseStop] /\
     (forall k, (k <= 1499)%nat ->
        calls (run_ticks k s0) = calls s0 /\
        timer_running (run_ticks k s0) = true /\
        remaining_seconds (run_ticks k s0) = 1500 - Z.of_nat k) /\
     calls s' = calls s0 ++ NoiseStop :: chime_if_returned r /\
     count_call NoiseStop (calls_since (calls s0) s') = 1%nat /\
     (r = Return tt ->
        count_call DingThread (calls_since (calls s0) s') = 1%nat) /\
     count_call NoiseStop (calls_since (calls s) s') =
       (if white_noise_var s then 2 else 3)%nat /\
     (dev_faults s0 = [] -> r = Return tt) /\
     timer_running s' = false /\ remaining_seconds s' = 0 /\
     timer_id s' = None /\ _stream s' = None /\ after_pending s' = [] /\
     (forall n, run_ticks n s' = s')).
Proof.
  split.
  - intros s Hrun. cbv zeta.
    destruct (Z_le_gt_dec (remaining_seconds s - 1) 0) as [Hle|Hgt].
    + pose proof (tick_expires s Hrun Hle) as H. cbv zeta in H.
      destruct H as (H1 & _ & H3 & H4 & H5 & H6 & H7 & H8 & H9 & H10).
      split; [exact H1|]. split; [|intros Hc; lia].
      intros _. repeat (split; [assumption|]). assumption.
    + rewrite tick_continues by (try exact Hrun; lia).
      split; [destruct s; reflexivity|]. split.
      * intros Hc. exfalso. destruct s. cbn in *. lia.
      * intros _. split; reflexivity.
  - intros s Hok Hret. cbv zeta.
    pose proof (start_pomodoro_counting s Hok Hret) as H. cbv zeta in H.
    destruct H as (Hrem & _ & _ & Hcs & Hc0).
    pose proof (countdown_expires_once _ 1499 Hc0) as H.
    cbv zeta in H. rewrite Hrem in H. specialize (H eq_refl).
    destruct H as (Hk & H3 & H4 & H5 & H6 & H7 & H8 & H9 & H10).
    destruct (count_stop_expiry
                (fst (fire_tick
                        (run_ticks 1499 (snd (PomodoroApp.start_pomodoro s))))))
      as [Hn1 Hn0].
    split; [exact Hrem|]. split; [now destruct Hc0|].
    split; [exact Hcs|].
    split.
    { intros k Hle. destruct (Hk k Hle) as (d1 & d2 & d3).
      rewrite d1, d2, d3. repeat split. }
    split; [exact H3|].
    split; [rewrite (calls_since_app _ _ _ H3); exact Hn1|].
    split.
    { intros Hr. rewrite (calls_since_app _ _ _ H3), Hr. reflexivity. }
    split.
    { rewrite Hcs, <- app_assoc in H3.
      rewrite (calls_since_app _ _ _ H3), count_call_app, Hn1.
      destruct (white_noise_var s); reflexivity. }
    repeat (split; [assumption|]). assumption.
Qed.

Lemma tick_counts_down_and_expires_once_witness :
  let s := PomodoroApp.init [] in
  let s0 := snd (PomodoroApp.start_pomodoro s) in
  sched_ok s /\ fst (PomodoroApp.start_pomodoro s) = Return tt /\
  fst (fire_tick (run_ticks 1499 s0)) = Return tt /\
  count_call NoiseStop (calls_since (calls s0) (run_ticks 1500 s0)) = 1%nat /\
  count_call DingThread (calls_since (calls s0) (run_ticks 1500 s0)) = 1%nat /\
  after_pending (run_ticks 1500 s0) = [].
Proof.
  cbv zeta.
  assert (Hok : sched_ok (PomodoroApp.init [])).
  { split; [reflexivity|]. intros H. now elim H. }
  pose proof (proj2 tick_counts_down_and_expires_once
                (PomodoroApp.init []) Hok eq_refl) as H.
  cbv zeta in H.
  destruct H as (_ & _ & _ & _ & _ & Hs & Hd & _ & Hr & _ & _ & _ & _ & Hp & _).
  split; [exact Hok|]. split; [reflexivity|].
  split; [apply Hr; reflexivity|].
  split; [exact Hs|].
  split; [apply Hd, Hr; reflexivity|].
  exact Hp.
Defined.

(** C2 as stated fails twice.  On a device that raises nothing, from the
    click on "Start Pomodoro" to the expiry the player's [stop] is invoked
    twice, not once: [_start_timer] begins with [_stop_timer_internal].
    And on a device whose stream fails to stop at the expiry, the
    exception leaves [_tick] before [_play_ding_async]: the expiring tick
    requests no chime. *)
Lemma one_stop_one_chime_counterexample :
  (let s := PomodoroApp.init [] in
   let s' := run_ticks 1500 (snd (PomodoroApp.start_pomodoro s)) in
   calls s = [] /\
   calls s' = [NoiseStop; NoiseStart; NoiseStop; DingThread] /\
   count_call NoiseStop (calls s') = 2%nat /\
   count_call NoiseStop (calls s') <> 1%nat) /\
  (let s0 := snd (PomodoroApp.start_pomodoro
                    (PomodoroApp.init [None; None; Some "device lost"%string])) in
   let s1 := run_ticks 1499 s0 in
   timer_running s1 = true /\ remaining_seconds s1 = 1 /\
   fst (fire_tick s1) = Raise (Exception "device lost") /\
   calls_since (calls s1) (snd (fire_tick s1)) = [NoiseStop] /\
   count_call DingThread (calls_since (calls s1) (snd (fire_tick s1))) = 0%nat /\
   count_call DingThread (calls_since (calls s1) (snd (fire_tick s1))) <> 1%nat).
Proof.
  cbv zeta. split.
  - split; [reflexivity|]. split; [vm_compute; reflexivity|].
    split; [vm_compute; reflexivity|]. vm_compute. discriminate.
  - split; [vm_compute; reflexivity|]. split; [vm_compute; reflexivity|].
    split; [vm_compute; reflexivity|]. split; [vm_compute; reflexivity|].
    split; [vm_compute; reflexivity|]. vm_compute. discriminate.
Qed.

(** ** Break intervals *)

Lemma count_start_stop cs :
  count_call NoiseStart (cs ++ [NoiseStop]) = count_call NoiseStart cs.
Proof. rewrite count_call_app. cbn. lia. Qed.

Lemma count_start_stop_ding cs :
  count_call NoiseStart ((cs ++ [NoiseStop]) ++ [DingThread]) =
  count_call NoiseStart cs.
Proof. rewrite !count_call_app. cbn. lia. Qed.

Lemma dispatch_quiet (e : event) (s : App) :
  noise_desired s = false ->
  noise_desired (dispatch s e) = false /\
  no_start_between s (dispatch s e) /\
  (_stream s = None -> _stream (dispatch s e) = None).
Proof.
  unfold no_start_between.
  destruct s as [tv wv st rs tr ti nd an ap df dn dop da dp so cs].
  cbn [noise_desired]. intros ->.
  destruct e; py_unfold.
  - destruct ap as [|e ap]; [repeat split; auto|].
    destruct tr; [|repeat split; auto].
    destruct (rs - 1 <=? 0); [|repeat split; auto].
    destruct st as [h|]; try (destruct df as [|[m|] [|[m'|] df]]);
      cbn; rewrite ?count_start_stop_ding, ?count_start_stop;
      repeat split; auto.
  - destruct tr; [|repeat split; auto].
    destruct (rs - 1 <=? 0); [|repeat split; auto].
    destruct st as [h|]; try (destruct df as [|[m|] [|[m'|] df]]);
      cbn; rewrite ?count_start_stop_ding, ?count_start_stop;
      repeat split; auto.
  - destruct tr; destruct st as [h|];
      try (destruct df as [|[m|] [|[m'|] df]]);
      cbn; rewrite ?count_start_stop; repeat split; auto.
Qed.

Lemma mainloop_quiet (evs : list event) (s : App) :
  noise_desired s = false -> _stream s = None ->
  noise_desired (mainloop evs s) = false /\
  no_start_between s (mainloop evs s) /\
  _stream (mainloop evs s) = None.
Proof.
  revert s. induction evs as [|e evs IH]; intros s Hd Hs.
  - repeat split; assumption.
  - cbn [mainloop fold_left].
    destruct (dispatch_quiet e s Hd) as (Hd1 & [Hc1 Hn1] & Hs1).
    destruct (IH (dispatch s e) Hd1 (Hs1 Hs)) as (Hd2 & [Hc2 Hn2] & Hs2).
    fold (mainloop evs (dispatch s e)).
    split; [exact Hd2|]. split; [|exact Hs2].
    split; congruence.
Qed.

Lemma start_break_quiet (s : App) :
  let s0 := snd (PomodoroApp.start_break s) in
  noise_desired s0 = false /\ no_start_between s s0 /\ _stream s0 = None.
Proof.
  cbv zeta. unfold no_start_between.
  destruct s as [tv wv st rs tr ti nd an ap df dn dop da dp so cs].
  py_unfold.
  destruct ti as [i|]; destruct st as [h|];
    try (destruct df as [|[m|] [|[m'|] df]]);
    cbn -[timer_text filter];
    rewrite ?count_start_stop, ?count_start_stop; repeat split; auto.
Qed.

(** C8.  From every state, so for either value of the noise toggle and
    whatever the device does, [start_break] followed by any sequence of
    ticks (scheduled or stale) and clicks on the toggle never invokes the
    player's [start] and has the device construct no stream:
    [noise_desired] is false from the start of the break on, the player
    holds no handle, the engine is Idle.  A break that is not interfered
    with is a running countdown of 300 seconds. *)
Theorem break_never_starts_noise (s : App) (evs : list event) :
  let s0 := snd (PomodoroApp.start_break s) in
  let s' := mainloop evs s0 in
  no_start_between s s0 /\ no_start_between s s' /\
  noise_desired s0 = false /\ noise_desired s' = false /\
  _stream s' = None /\ engine s' = Idle /\
  (fst (PomodoroApp.start_break s) = Return tt ->
     timer_running s0 = true /\
     remaining_seconds s0 = SHORT_BREAK_DURATION_SECONDS).
Proof.
  cbv zeta.
  destruct (start_break_quiet s) as (Hd0 & [Hc0 Hn0] & Hs0).
  destruct (mainloop_quiet evs _ Hd0 Hs0) as (Hd1 & [Hc1 Hn1] & Hs1).
  split; [split; assumption|].
  split; [split; congruence|].
  split; [exact Hd0|]. split; [exact Hd1|]. split; [exact Hs1|].
  split; [unfold engine; now rewrite Hs1|].
  destruct s as [tv wv st rs tr ti nd an ap df dn dop da dp so cs].
  py_unfold.
  destruct ti as [i|]; destruct st as [h|];
    try (destruct df as [|[m|] [|[m'|] df]]);
    cbn -[timer_text filter]; intros Hr; try discriminate; split; reflexivity.
Qed.

Lemma break_never_starts_noise_witness :
  let s := snd (PomodoroApp.start_pomodoro (PomodoroApp.init [])) in
  let s' := mainloop [Toggle; Tick; Toggle; Tick; StaleTick; Toggle]
              (snd (PomodoroApp.start_break s)) in
  white_noise_var s = true /\ _stream s = Some 0%nat /\
  fst (PomodoroApp.start_break s) = Return tt /\
  remaining_seconds (snd (PomodoroApp.start_break s)) = 300 /\
  count_call NoiseStart (calls s') = count_call NoiseStart (calls s) /\
  _stream s' = None.
Proof.
  cbv zeta.
  pose proof (break_never_starts_noise
    (snd (PomodoroApp.start_pomodoro (PomodoroApp.init [])))
    [Toggle; Tick; Toggle; Tick; StaleTick; Toggle]) as H.
  cbv zeta in H. destruct H as (_ & [Hc _] & _ & _ & Hs & _ & Hr).
  split; [reflexivity|]. split; [reflexivity|]. split; [reflexivity|].
  split; [exact (proj2 (Hr eq_refl))|].
  split; [exact Hc|exact Hs].
Defined.

(** ** The chime buffer *)

Lemma arange_from_length start len : List.length (arange_from start len) = len.
Proof. revert start. induction len as [|k IH]; intros; cbn; [|rewrite IH]; reflexivity. Qed.

Lemma arange_from_nth start len i d :
  (i < len)%nat -> nth i (arange_from start len) d = start + Z.of_nat i.
Proof.
  revert start i. induction len as [|k IH]; intros start i Hi; [lia|].
  destruct i as [|i]; cbn [arange_from nth]; [lia|].
  rewrite IH by lia. lia.
Qed.

Lemma np_arange_nth num i d :
  (i < Z.to_nat num)%nat -> nth i (np_arange num) d = Z.of_nat i.
Proof. intros Hi. unfold np_arange. now rewrite arange_from_nth. Qed.

Lemma np_arange_in num i :
  (i < Z.to_nat num)%nat -> In (Z.of_nat i) (np_arange num).
Proof.
  intros Hi. rewrite <- (np_arange_nth num i 0 Hi). apply nth_In.
  unfold np_arange. now rewrite arange_from_length.
Qed.

Lemma chime_instants_checked :
  (let step := chime_step in
   forallb (chime_instant_ok step) (np_arange 26460)) = true.
Proof. vm_compute. reflexivity. Qed.

Lemma chime_instant_checked (i : nat) :
  (i < Z.to_nat 26460)%nat ->
  chime_instant_ok chime_step (Z.of_nat i) = true.
Proof.
  intros Hi. pose proof chime_instants_checked as H. cbv zeta in H.
  rewrite forallb_forall in H. apply H, np_arange_in, Hi.
Qed.

Lemma ding_t_nth (i : nat) :
  (i < Z.to_nat 26460)%nat ->
  nth i (ding_t 26460) S754_nan = chime_instant chime_step (Z.of_nat i).
Proof.
  intros Hi. unfold ding_t, np_linspace_open.
  rewrite (nth_indep _ S754_nan
             (linspace_item (S754_zero false)
                (f64_sub DING_DURATION_SECONDS (S754_zero false))
                (float_of_int 26460)
                (f64_div (f64_sub DING_DURATION_SECONDS (S754_zero false))
                   (float_of_int 26460)) 0))
    by (rewrite length_map; unfold np_arange; rewrite arange_from_length; exact Hi).
  rewrite map_nth, np_arange_nth by exact Hi. reflexivity.
Qed.

Lemma ding_t_length : List.length (ding_t 26460) = Z.to_nat 26460.
Proof.
  unfold ding_t, np_linspace_open, np_arange.
  rewrite length_map, arange_from_length. reflexivity.
Qed.

(** C5.  With the constants of the source, [44100 * 0.6] is the binary64
    value 26460 exactly, so [int] of it, and its rounding, is 26460: the
    chime buffer has 26460 samples.  Sample [i] of the waveform is
    [0.3 * sin((2 * pi * 880) * t_i)] in binary64 arithmetic, and what is
    played is its cast to float32.  The constants are what the formula
    says: [np.pi] is the binary64 number between 3.141592653589793 and
    3.141592653589794; [2 * np.pi * 880] evaluates to
    [6079423068149441 / 2^40], between 5529.203070318035 and
    5529.203070318037; the factor 0.3 is [5404319552844595 / 2^54],
    between 0.29999999999999998 and 0.3; the duration 0.6 is between
    0.59999999999999997 and 0.6.  Here [t_i = i * step] with
    [step = 0.6 / 26460], which is [6692696262570359 / 2^68], between
    0.000022675736961451 and 0.000022675736961452: the instants start at
    0, increase strictly and stay below 0.6, the endpoint being left out.
    On a device that raises nothing [_play_ding] hands exactly this buffer
    to [sd.play] at 44100 Hz. *)
Theorem chime_buffer_has_26460_samples (np_sin : spec_float -> spec_float) :
  let t := ding_t 26460 in
  let buf := map astype_float32 (ding_waveform np_sin 26460) in
  let a := S754_finite false 5404319552844595 (-54) in
  let omega := S754_finite false 6079423068149441 (-40) in
  let step := S754_finite false 6692696262570359 (-68) in
  f64_mul (float_of_int 44100) DING_DURATION_SECONDS = float_of_int 26460 /\
  ding_samples = Some 26460 /\
  List.length buf = Z.to_nat 26460 /\
  (DING_FREQUENCY_HZ = 880 /\
   decimal_between 3141592653589793 3141592653589794 15 np_pi = true /\
   ding_omega = omega /\
   decimal_between 5529203070318035 5529203070318037 12 ding_omega = true /\
   lit_0_3 = a /\
   decimal_between 29999999999999998 30000000000000000 17 lit_0_3 = true /\
   decimal_between 59999999999999997 60000000000000000 17
     DING_DURATION_SECONDS = true /\
   chime_step = step /\
   f64_div DING_DURATION_SECONDS (float_of_int 26460) = step /\
   decimal_between 22675736961451 22675736961452 18 chime_step = true) /\
  nth 0 t S754_nan = S754_zero false /\
  (forall i : nat, (i < Z.to_nat 26460)%nat ->
     nth i (ding_waveform np_sin 26460) S754_nan =
       f64_mul a (np_sin (f64_mul omega (nth i t S754_nan))) /\
     nth i buf S754_nan = astype_float32 (nth i (ding_waveform np_sin 26460) S754_nan) /\
     SFeqb (nth i t S754_nan) (f64_mul (float_of_int (Z.of_nat i)) step) = true /\
     SFleb (S754_zero false) (nth i t S754_nan) = true /\
     SFltb (nth i t S754_nan) DING_DURATION_SECONDS = true /\
     ((S i < Z.to_nat 26460)%nat ->
        SFltb (nth i t S754_nan) (nth (S i) t S754_nan) = true)) /\
  (forall s : App, dev_faults s = [] ->
     fst (_play_ding np_sin s) = Return tt /\
     dev_played (snd (_play_ding np_sin s)) = dev_played s ++ [(buf, 44100)]).
Proof.
  cbv zeta.
  assert (Homega : ding_omega = S754_finite false 6079423068149441 (-40))
    by (vm_compute; reflexivity).
  assert (Hstep : chime_step = S754_finite false 6692696262570359 (-68))
    by (vm_compute; reflexivity).
  split; [vm_compute; reflexivity|].
  split; [vm_compute; reflexivity|].
  split; [unfold ding_waveform; rewrite !length_map, ding_t_length; reflexivity|].
  split.
  { split; [reflexivity|]. split; [vm_compute; reflexivity|].
    split; [exact Homega|]. split; [vm_compute; reflexivity|].
    split; [reflexivity|]. split; [vm_compute; reflexivity|].
    split; [vm_compute; reflexivity|]. split; [exact Hstep|].
    split; vm_compute; reflexivity. }
  split; [rewrite (ding_t_nth 0) by lia; reflexivity|].
  split.
  - intros i Hi.
    pose proof (chime_instant_checked i Hi) as Hok.
    unfold chime_instant_ok in Hok. cbv zeta in Hok.
    apply andb_prop in Hok. destruct Hok as [Hok H4].
    apply andb_prop in Hok. destruct Hok as [Hok H3].
    apply andb_prop in Hok. destruct Hok as [H1 H2].
    assert (Hw : nth i (ding_waveform np_sin 26460) S754_nan =
                 f64_mul lit_0_3
                   (np_sin (f64_mul ding_omega (nth i (ding_t 26460) S754_nan)))).
    { unfold ding_waveform.
      rewrite (nth_indep _ S754_nan
                 (f64_mul lit_0_3 (np_sin (f64_mul ding_omega S754_nan))))
        by (rewrite length_map, ding_t_length; exact Hi).
      apply (map_nth (fun t => f64_mul lit_0_3 (np_sin (f64_mul ding_omega t)))). }
    rewrite Homega in Hw. unfold lit_0_3 in Hw.
    split; [exact Hw|].
    split.
    { rewrite (nth_indep _ S754_nan (astype_float32 S754_nan))
        by (unfold ding_waveform; rewrite !length_map, ding_t_length; exact Hi).
      apply (map_nth astype_float32). }
    rewrite ding_t_nth by exact Hi.
    split; [rewrite <- Hstep; exact H4|]. split; [exact H1|]. split; [exact H2|].
    intros HS. rewrite ding_t_nth by exact HS.
    replace (Z.of_nat (S i)) with (Z.of_nat i + 1) by lia. exact H3.
  - intros s Hs. unfold _play_ding.
    replace ding_samples with (Some 26460) by (vm_compute; reflexivity).
    destruct s as [tv wv st rs tr ti nd an ap df dn dop da dp so cs].
    cbn in Hs. subst df. split; reflexivity.
Qed.

Lemma chime_buffer_has_26460_samples_witness :
  let buf := map astype_float32 (ding_waveform (fun x => x) 26460) in
  (1 < Z.to_nat 26460)%nat /\
  SFltb (nth 1 (ding_t 26460) S754_nan) DING_DURATION_SECONDS = true /\
  dev_faults (PomodoroApp.init []) = [] /\
  dev_played (snd (_play_ding (fun x => x) (PomodoroApp.init []))) = [(buf, 44100)].
Proof.
  cbv zeta.
  pose proof (chime_buffer_has_26460_samples (fun x => x)) as H.
  cbv zeta in H. destruct H as (_ & _ & _ & _ & _ & Hi & Hp).
  assert (H1 : (1 < Z.to_nat 26460)%nat) by lia.
  split; [exact H1|].
  split; [exact (proj1 (proj2 (proj2 (proj2 (proj2 (Hi 1%nat H1))))))|].
  split; [reflexivity|].
  exact (proj2 (Hp (PomodoroApp.init []) eq_refl)).
Defined.

(** ** Rounding in [SpecFloat]

    The executable specification rounds by shifting the mantissa right and
    looking at the bits that fall off.  What the callback needs of it: a
    value that a number of the format dominates rounds to a number of the
    format that the same number dominates. *)

Lemma digits2_pos_bounds (p : positive) :
  2 ^ (Zpos (digits2_pos p) - 1) <= Zpos p < 2 ^ Zpos (digits2_pos p).
Proof.
  induction p as [p IH|p IH|]; cbn [digits2_pos].
  - rewrite Pos2Z.inj_succ, Z.pow_succ_r by lia.
    replace (Z.succ (Zpos (digits2_pos p)) - 1) with (Z.succ (Zpos (digits2_pos p) - 1)) by lia.
    rewrite Z.pow_succ_r by lia. lia.
  - rewrite Pos2Z.inj_succ, Z.pow_succ_r by lia.
    replace (Z.succ (Zpos (digits2_pos p)) - 1) with (Z.succ (Zpos (digits2_pos p) - 1)) by lia.
    rewrite Z.pow_succ_r by lia. lia.
  - cbn. lia.
Qed.

Lemma digits_le_of_lt_pow (p : positive) (k : Z) :
  0 <= k -> Zpos p < 2 ^ k -> Zpos (digits2_pos p) <= k.
Proof.
  intros Hk H. destruct (digits2_pos_bounds p) as [Hl _].
  destruct (Z_le_gt_dec (Zpos (digits2_pos p)) k) as [|Hgt]; [assumption|].
  exfalso. assert (2 ^ k <= 2 ^ (Zpos (digits2_pos p) - 1)) by (apply Z.pow_le_mono_r; lia).
  lia.
Qed.

Lemma digits_ge_of_pow_le (p : positive) (k : Z) :
  2 ^ k <= Zpos p -> k + 1 <= Zpos (digits2_pos p).
Proof.
  intros H. destruct (digits2_pos_bounds p) as [_ Hu].
  destruct (Z_le_gt_dec (k + 1) (Zpos (digits2_pos p))) as [|Hgt]; [assumption|].
  exfalso.
  destruct (Z_lt_le_dec k 0) as [Hneg|Hk].
  - lia.
  - assert (2 ^ Zpos (digits2_pos p) <= 2 ^ k) by (apply Z.pow_le_mono_r; lia). lia.
Qed.

Section Iter.

Context {A : Type} (f : A -> A) (P : Z -> A -> Prop).
Hypothesis step : forall k y, 0 <= k -> P k y -> P (k + 1) (f y).

Lemma iter_pos_inv (p : positive) :
  forall k y, 0 <= k -> P k y -> P (k + Zpos p) (iter_pos f p y).
Proof.
  induction p as [p IH|p IH|]; intros k y Hk Hy; cbn [iter_pos].
  - replace (k + Zpos p~1) with (((k + 1) + Zpos p) + Zpos p) by lia.
    apply IH; [lia|]. apply IH; [lia|]. apply step; assumption.
  - replace (k + Zpos p~0) with ((k + Zpos p) + Zpos p) by lia.
    apply IH; [lia|]. apply IH; assumption.
  - apply step; assumption.
Qed.

End Iter.

Lemma shr_1_inv (M : Z) (k : Z) (r : shr_record) :
  0 <= M -> 0 <= k -> shr_inv M k r -> shr_inv M (k + 1) (shr_1 r).
Proof.
  intros HM Hk [Hm Hx]. destruct r as [m rb sb]. cbn in Hm, Hx.
  assert (Hm0 : 0 <= m) by (subst m; apply Z.div_pos; [lia|apply Z.pow_pos_nonneg; lia]).
  assert (Hp : 0 < 2 ^ k) by (apply Z.pow_pos_nonneg; lia).
  assert (Hdiv : M / 2 ^ (k + 1) = m / 2).
  { rewrite Z.pow_add_r, Z.pow_1_r by lia. rewrite <- Z.div_div by lia. now subst m. }
  assert (Hmod : M mod 2 ^ (k + 1) = 0 -> M mod 2 ^ k = 0 /\ m mod 2 = 0).
  { intros H0. rewrite Z.pow_add_r, Z.pow_1_r in H0 by lia.
    rewrite Z.rem_mul_r in H0 by lia. subst m.
    pose proof (Z.mod_pos_bound M (2 ^ k) Hp).
    pose proof (Z.mod_pos_bound (M / 2 ^ k) 2 ltac:(lia)). nia. }
  split.
  - rewrite Hdiv. destruct m as [|[p|p|]|p]; cbn; try lia.
    + rewrite Pos2Z.inj_xI. apply Z.div_unique with (r := 1); lia.
    + rewrite Pos2Z.inj_xO. apply Z.div_unique with (r := 0); lia.
  - intros H0. destruct (Hmod H0) as [H1 H2]. destruct (Hx H1) as [-> ->].
    destruct m as [|[p|p|]|p]; cbn; try lia; try (split; reflexivity).
    + exfalso. rewrite Pos2Z.inj_xI in H2.
      rewrite Z.add_comm, Z.mul_comm, Z.mod_add in H2 by lia. cbn in H2. lia.
    + exfalso. cbn in H2. lia.
Qed.

Lemma shr_spec (m e n : Z) :
  0 <= m -> 0 <= n ->
  snd (shr (Build_shr_record m false false) e n) = e + n /\
  shr_inv m n (fst (shr (Build_shr_record m false false) e n)).
Proof.
  intros Hm Hn. destruct n as [|p|p]; [| |lia].
  - cbn. split; [lia|]. split; cbn; [now rewrite Z.div_1_r|auto].
  - cbn [shr fst snd]. split; [reflexivity|].
    change (Zpos p) with (0 + Zpos p).
    apply (iter_pos_inv shr_1 (shr_inv m)).
    + intros k y Hk Hy. now apply shr_1_inv.
    + lia.
    + split; cbn; [now rewrite Z.div_1_r|auto].
Qed.

Lemma shr_nonpos (r : shr_record) (e n : Z) :
  n <= 0 -> shr r e n = (r, e).
Proof. destruct n; [reflexivity|lia|reflexivity]. Qed.

Lemma rne_bounds (M n : Z) (r : shr_record) :
  shr_inv M n r ->
  let m1 := round_nearest_even (shr_m r) (loc_of_shr_record r) in
  M / 2 ^ n <= m1 <= M / 2 ^ n + 1 /\ (M mod 2 ^ n = 0 -> m1 = M / 2 ^ n).
Proof.
  intros [Hm Hx]. cbv zeta. destruct r as [m rb sb]. cbn in *. subst m.
  split.
  - destruct rb, sb; cbn; try lia. destruct (Z.even _); lia.
  - intros H0. destruct (Hx H0) as [-> ->]. reflexivity.
Qed.

(** Rounding to nearest never passes a multiple of the unit that bounds
    the value. *)
Lemma rne_le_multiple (M n K : Z) (r : shr_record) :
  0 <= M -> 0 <= n -> shr_inv M n r -> M <= K * 2 ^ n ->
  round_nearest_even (shr_m r) (loc_of_shr_record r) <= K.
Proof.
  intros HM Hn Hinv HK.
  destruct (rne_bounds M n r Hinv) as [[_ Hu] Hex].
  assert (Hp : 0 < 2 ^ n) by (apply Z.pow_pos_nonneg; lia).
  destruct (Z.eq_dec (M mod 2 ^ n) 0) as [H0|H0].
  - rewrite (Hex H0). apply Z.div_le_upper_bound; lia.
  - assert (M / 2 ^ n < K); [|lia].
    pose proof (Z.div_mod M (2 ^ n) ltac:(lia)).
    pose proof (Z.mod_pos_bound M (2 ^ n) Hp). nia.
Qed.

Section Rounding.

Variables prec emax : Z.
Hypothesis prec_pos : 0 < prec.

Local Abbreviation fexp := (SpecFloat.fexp prec emax).
Local Abbreviation emin := (SpecFloat.emin prec emax).

Lemma fexp_mono a b : a <= b -> fexp a <= fexp b.
Proof. unfold SpecFloat.fexp. lia. Qed.

Lemma fexp_ge_emin a : emin <= fexp a.
Proof. unfold SpecFloat.fexp. lia. Qed.

(** A smaller magnitude has a smaller exponent of its leading bit. *)
Lemma digits_exp_mono (m mb : positive) (e eb E0 : Z) :
  E0 <= e -> E0 <= eb ->
  Zpos m * 2 ^ (e - E0) <= Zpos mb * 2 ^ (eb - E0) ->
  Zpos (digits2_pos m) + e <= Zpos (digits2_pos mb) + eb.
Proof.
  intros He Heb H.
  destruct (digits2_pos_bounds m) as [Hl _].
  destruct (digits2_pos_bounds mb) as [_ Hu].
  set (d := Zpos (digits2_pos m)) in *. set (db := Zpos (digits2_pos mb)) in *.
  assert (Hd : 1 <= d) by (subst d; lia).
  assert (Hdb : 1 <= db) by (subst db; lia).
  assert (H1 : 2 ^ (d - 1 + (e - E0)) <= Zpos m * 2 ^ (e - E0)).
  { rewrite Z.pow_add_r by lia. apply Z.mul_le_mono_nonneg_r; [apply Z.pow_nonneg; lia|exact Hl]. }
  assert (H2 : Zpos mb * 2 ^ (eb - E0) < 2 ^ (db + (eb - E0))).
  { rewrite Z.pow_add_r by lia. apply Z.mul_lt_mono_pos_r; [apply Z.pow_pos_nonneg; lia|exact Hu]. }
  assert (H3 : 2 ^ (d - 1 + (e - E0)) < 2 ^ (db + (eb - E0))) by lia.
  apply Z.pow_lt_mono_r_iff in H3; lia.
Qed.

Lemma bounded_spec (m : positive) (e : Z) :
  bounded prec emax m e = true <->
  fexp (Zpos (digits2_pos m) + e) = e /\ e <= emax - prec.
Proof.
  unfold bounded, canonical_mantissa. rewrite andb_true_iff, Z.eqb_eq, Z.leb_le. tauto.
Qed.

Lemma binary_round_aux_bound (sx : bool) (m : positive) (e : Z)
      (mb : positive) (eb E0 : Z) :
  e <= fexp (Zpos (digits2_pos m) + e) ->
  bounded prec emax mb eb = true ->
  E0 <= e -> E0 <= eb ->
  Zpos m * 2 ^ (e - E0) <= Zpos mb * 2 ^ (eb - E0) ->
  match binary_round_aux prec emax sx (Zpos m) e loc_Exact with
  | S754_zero s => s = sx
  | S754_finite s m2 e2 =>
      s = sx /\ bounded prec emax m2 e2 = true /\ E0 <= e2 /\
      Zpos m2 * 2 ^ (e2 - E0) <= Zpos mb * 2 ^ (eb - E0)
  | _ => False
  end.
Proof.
  intros Hpre HB HE0 HE0b Hle.
  apply bounded_spec in HB. destruct HB as [HBc HBe].
  unfold binary_round_aux, shr_fexp. cbn [Zdigits2 shr_record_of_loc].
  set (d := Zpos (digits2_pos m)) in *.
  set (e' := fexp (d + e)) in *.
  assert (Hn : 0 <= e' - e) by lia.
  destruct (shr_spec (Zpos m) e (e' - e) ltac:(lia) Hn) as [He1 Hinv].
  destruct (shr {| shr_m := Zpos m; shr_r := false; shr_s := false |} e (e' - e))
    as [r1 e1]. cbn [fst snd] in He1, Hinv.
  assert (He1' : e1 = e') by lia. clear He1. subst e1.
  set (m1 := round_nearest_even (shr_m r1) (loc_of_shr_record r1)).
  assert (He'b : e' <= eb).
  { rewrite <- HBc. apply fexp_mono. eapply digits_exp_mono; eauto. }
  assert (He'min : emin <= e') by apply fexp_ge_emin.
  set (K := Zpos mb * 2 ^ (eb - e')).
  assert (HK : Zpos mb * 2 ^ (eb - E0) = K * 2 ^ (e' - E0)).
  { unfold K. rewrite <- Z.mul_assoc, <- Z.pow_add_r by lia. f_equal. f_equal. lia. }
  assert (Hm1K : m1 <= K).
  { apply (rne_le_multiple (Zpos m) (e' - e) K r1); try lia; [exact Hinv|].
    assert (H2 : 2 ^ (e' - E0) = 2 ^ (e' - e) * 2 ^ (e - E0)).
    { rewrite <- Z.pow_add_r by lia. f_equal. lia. }
    rewrite HK, H2 in Hle.
    assert (0 < 2 ^ (e - E0)) by (apply Z.pow_pos_nonneg; lia).
    nia. }
  destruct (rne_bounds _ _ _ Hinv) as [[Hm1l Hm1u] _]. fold m1 in Hm1l, Hm1u.
  destruct (digits2_pos_bounds m) as [Hdl Hdu]. fold d in Hdl, Hdu.
  assert (Hd1 : 1 <= d) by (subst d; lia).
  assert (Hpn : 0 < 2 ^ (e' - e)) by (apply Z.pow_pos_nonneg; lia).
  assert (Hm' : 0 <= Zpos m / 2 ^ (e' - e)) by (apply Z.div_pos; lia).
  assert (Hm1p : m1 <= 2 ^ prec).
  { destruct (Z_le_gt_dec (e' - e) d) as [Hnd|Hnd].
    - assert (Zpos m / 2 ^ (e' - e) < 2 ^ (d - (e' - e))).
      { apply Z.div_lt_upper_bound; [lia|]. rewrite <- Z.pow_add_r by lia.
        replace (e' - e + (d - (e' - e))) with d by lia. exact Hdu. }
      assert (2 ^ (d - (e' - e)) <= 2 ^ prec).
      { apply Z.pow_le_mono_r; [lia|]. unfold e', SpecFloat.fexp. lia. }
      lia.
    - assert (Zpos m / 2 ^ (e' - e) = 0).
      { apply Z.div_small. split; [lia|].
        assert (2 ^ d <= 2 ^ (e' - e)) by (apply Z.pow_le_mono_r; lia). lia. }
      pose proof (Z.pow_pos_nonneg 2 prec ltac:(lia) ltac:(lia)). lia. }
  assert (Hm1n : emin < e' -> 2 ^ (prec - 1) <= m1).
  { intros Hgt. assert (Hen : e' - e = d - prec) by (unfold e', SpecFloat.fexp in *; lia).
    assert (2 ^ (prec - 1) <= Zpos m / 2 ^ (e' - e)); [|lia].
    apply Z.div_le_lower_bound; [lia|]. rewrite <- Z.pow_add_r by lia.
    replace (e' - e + (prec - 1)) with (d - 1) by lia. exact Hdl. }
  clearbody m1.
  destruct m1 as [|p1|p1]; [| |lia].
  - cbn [Zdigits2].
    destruct (Z_le_gt_dec (fexp (0 + e') - e') 0) as [Hn2|Hn2].
    + rewrite shr_nonpos by exact Hn2. reflexivity.
    + destruct (shr_spec 0 e' (fexp (0 + e') - e') ltac:(lia) ltac:(lia)) as [_ [Hs _]].
      destruct (shr _ e' _) as [r2 e2]. cbn [fst] in Hs. rewrite Hs.
      rewrite Z.div_0_l by (apply Z.pow_nonzero; lia). reflexivity.
  - cbn [Zdigits2].
    destruct (digits2_pos_bounds p1) as [Hp1l Hp1u].
    set (d1 := Zpos (digits2_pos p1)) in *.
    assert (Hd1p : d1 <= prec + 1).
    { apply digits_le_of_lt_pow; [lia|]. rewrite Z.pow_add_r, Z.pow_1_r by lia. lia. }
    destruct (Z_le_gt_dec d1 prec) as [Hle1|Hgt1].
    + assert (Hfe : fexp (d1 + e') = e').
      { destruct (Z.eq_dec e' emin) as [Heq|Hne].
        - unfold SpecFloat.fexp. lia.
        - assert (prec <= d1).
          { replace prec with ((prec - 1) + 1) by lia.
            apply digits_ge_of_pow_le. apply Hm1n. lia. }
          unfold SpecFloat.fexp. lia. }
      rewrite Hfe, Z.sub_diag. cbn [shr shr_m].
      assert (Hb : (e' <=? emax - prec) = true) by (apply Z.leb_le; lia).
      rewrite Hb. split; [reflexivity|]. split.
      { apply bounded_spec. fold d1. split; [exact Hfe|lia]. }
      split; [lia|].
      rewrite HK. apply Z.mul_le_mono_nonneg_r; [apply Z.pow_nonneg; lia|exact Hm1K].
    + assert (Hd1e : d1 = prec + 1) by lia.
      assert (Hp1 : Zpos p1 = 2 ^ prec).
      { rewrite Hd1e in Hp1l. replace (prec + 1 - 1) with prec in Hp1l by lia. lia. }
      assert (Hfe : fexp (d1 + e') = e' + 1).
      { unfold SpecFloat.fexp. lia. }
      rewrite Hfe. replace (e' + 1 - e') with 1 by lia.
      destruct (shr_spec (Zpos p1) e' 1 ltac:(lia) ltac:(lia)) as [He2 [Hs _]].
      destruct (shr _ e' 1) as [r2 e2]. cbn [fst snd] in He2, Hs. subst e2.
      rewrite Hs, Hp1, Z.pow_1_r.
      assert (Hhalf : 2 ^ prec / 2 = 2 ^ (prec - 1)).
      { replace prec with (1 + (prec - 1)) at 1 by lia.
        rewrite Z.pow_add_r, Z.pow_1_r by lia.
        rewrite Z.mul_comm, Z.div_mul by lia. reflexivity. }
      rewrite Hhalf.
      assert (Hpp : 0 < 2 ^ (prec - 1)) by (apply Z.pow_pos_nonneg; lia).
      destruct (2 ^ (prec - 1)) as [|q|q] eqn:Eq; [lia| |lia].
      assert (He2b : e' + 1 <= eb).
      { rewrite <- HBc, <- Hfe. apply fexp_mono.
        apply (digits_exp_mono p1 mb e' eb E0); [lia|lia|].
        rewrite HK. apply Z.mul_le_mono_nonneg_r; [apply Z.pow_nonneg; lia|exact Hm1K]. }
      assert (Hb : (e' + 1 <=? emax - prec) = true) by (apply Z.leb_le; lia).
      rewrite Hb. split; [reflexivity|].
      assert (Hdq : Zpos (digits2_pos q) = prec).
      { apply Z.le_antisymm.
        - apply digits_le_of_lt_pow; [lia|]. rewrite <- Eq.
          apply Z.pow_lt_mono_r; lia.
        - replace prec with ((prec - 1) + 1) at 1 by lia.
          apply digits_ge_of_pow_le. rewrite <- Eq. lia. }
      split.
      { apply bounded_spec. rewrite Hdq. split; [unfold SpecFloat.fexp; lia|lia]. }
      split; [lia|].
      rewrite <- Eq.
      replace (2 ^ (prec - 1) * 2 ^ (e' + 1 - E0)) with (Zpos p1 * 2 ^ (e' - E0)).
      * rewrite HK. apply Z.mul_le_mono_nonneg_r; [apply Z.pow_nonneg; lia|exact Hm1K].
      * rewrite Hp1, <- !Z.pow_add_r by lia. f_equal. lia.
Qed.

End Rounding.

Lemma scaled_le_shift (m1 m2 : positive) (e1 e2 E0 E1 : Z) :
  E1 <= E0 -> E0 <= e1 -> E0 <= e2 ->
  (Zpos m1 * 2 ^ (e1 - E0) <= Zpos m2 * 2 ^ (e2 - E0) <->
   Zpos m1 * 2 ^ (e1 - E1) <= Zpos m2 * 2 ^ (e2 - E1)).
Proof.
  intros H1 H2 H3.
  replace (e1 - E1) with ((e1 - E0) + (E0 - E1)) by lia.
  replace (e2 - E1) with ((e2 - E0) + (E0 - E1)) by lia.
  rewrite !Z.pow_add_r, !Z.mul_assoc by lia.
  assert (0 < 2 ^ (E0 - E1)) by (apply Z.pow_pos_nonneg; lia).
  split; intros H0; nia.
Qed.

Lemma pos_iter_xO (m d : positive) :
  Zpos (Pos.iter xO m d) = Zpos m * 2 ^ Zpos d.
Proof.
  induction d as [|d IH] using Pos.peano_ind.
  - cbn. lia.
  - rewrite Pos.iter_succ, Pos2Z.inj_xO, IH, Pos2Z.inj_succ, Z.pow_succ_r by lia. lia.
Qed.

Lemma digits_shift (m d : positive) :
  Zpos (digits2_pos (Pos.iter xO m d)) = Zpos (digits2_pos m) + Zpos d.
Proof.
  destruct (digits2_pos_bounds m) as [Hl Hu].
  assert (Hp : 0 < 2 ^ Zpos d) by (apply Z.pow_pos_nonneg; lia).
  apply Z.le_antisymm.
  - apply digits_le_of_lt_pow; [lia|]. rewrite pos_iter_xO, Z.pow_add_r by lia. nia.
  - replace (Zpos (digits2_pos m) + Zpos d)
      with ((Zpos (digits2_pos m) - 1 + Zpos d) + 1) by lia.
    apply digits_ge_of_pow_le. rewrite pos_iter_xO, Z.pow_add_r by lia. nia.
Qed.

Section Align.
Variables prec emax : Z.
Hypothesis prec_pos : 0 < prec.
Local Abbreviation fexp := (SpecFloat.fexp prec emax).

Lemma shl_align_spec (mx : positive) (ex : Z) :
  let mz := fst (shl_align mx ex (fexp (Zpos (digits2_pos mx) + ex))) in
  let ez := snd (shl_align mx ex (fexp (Zpos (digits2_pos mx) + ex))) in
  ez = Z.min ex (fexp (Zpos (digits2_pos mx) + ex)) /\
  ez <= fexp (Zpos (digits2_pos mz) + ez) /\
  Zpos mz = Zpos mx * 2 ^ (ex - ez).
Proof.
  cbv zeta. unfold shl_align.
  set (ex' := fexp (Zpos (digits2_pos mx) + ex)).
  destruct (ex' - ex) as [|d|d] eqn:E; cbn [fst snd].
  - rewrite Z.sub_diag. fold ex'. lia.
  - rewrite Z.sub_diag. fold ex'. lia.
  - assert (Hd : ex - ex' = Zpos d) by lia.
    rewrite digits_shift, pos_iter_xO, Hd.
    replace (Zpos (digits2_pos mx) + Zpos d + ex') with (Zpos (digits2_pos mx) + ex) by lia.
    fold ex'. lia.
Qed.

(** Rounding a value that a number of the format dominates. *)
Lemma binary_round_bound (sx : bool) (m : positive) (e : Z)
      (mb : positive) (eb E0 : Z) :
  bounded prec emax mb eb = true ->
  E0 <= e -> E0 <= eb ->
  fexp (Zpos (digits2_pos m) + e) >= E0 ->
  Zpos m * 2 ^ (e - E0) <= Zpos mb * 2 ^ (eb - E0) ->
  match binary_round prec emax sx m e with
  | S754_zero s => s = sx
  | S754_finite s m2 e2 =>
      s = sx /\ bounded prec emax m2 e2 = true /\ E0 <= e2 /\
      Zpos m2 * 2 ^ (e2 - E0) <= Zpos mb * 2 ^ (eb - E0)
  | _ => False
  end.
Proof.
  intros HB He Heb Hf Hle. unfold binary_round.
  pose proof (shl_align_spec m e) as H. cbv zeta in H.
  destruct (shl_align m e (fexp (Zpos (digits2_pos m) + e))) as [mz ez] eqn:E.
  cbn [fst snd] in H. destruct H as (H1 & H2 & H3).
  assert (HE0 : E0 <= ez) by lia.
  apply (binary_round_aux_bound prec emax prec_pos sx mz ez mb eb E0); try assumption.
  rewrite H3, <- Z.mul_assoc, <- Z.pow_add_r by lia.
  replace (e - ez + (ez - E0)) with (e - E0) by lia. exact Hle.
Qed.

End Align.

(** ** The audio callback *)

Lemma SFabs_leb_scaled (s1 s2 : bool) (m1 m2 : positive) (e1 e2 E0 : Z) :
  E0 <= e1 -> E0 <= e2 ->
  (SFabs_leb (S754_finite s1 m1 e1) (S754_finite s2 m2 e2) = true <->
   Zpos m1 * 2 ^ (e1 - E0) <= Zpos m2 * 2 ^ (e2 - E0)).
Proof.
  intros H1 H2. unfold SFabs_leb. cbv zeta. rewrite Z.leb_le.
  apply scaled_le_shift; lia.
Qed.

Lemma SFabs_leb_trans (x y z : spec_float) :
  SFabs_leb x y = true -> SFabs_leb y z = true -> SFabs_leb x z = true.
Proof.
  destruct x as [sx| | |sx mx ex], y as [sy| | |sy my ey], z as [sz| | |sz mz ez];
    try discriminate; try reflexivity.
  intros H1 H2.
  set (E0 := Z.min ex (Z.min ey ez)).
  apply (SFabs_leb_scaled sx sy mx my ex ey E0) in H1; [|lia|lia].
  apply (SFabs_leb_scaled sy sz my mz ey ez E0) in H2; [|lia|lia].
  apply (SFabs_leb_scaled sx sz mx mz ex ez E0); lia.
Qed.

Lemma astype_float32_le_one (x : spec_float) :
  SFabs_leb x lit_1_0 = true ->
  is_float32 (astype_float32 x) = true /\
  SFabs_leb (astype_float32 x) f32_one = true.
Proof.
  destruct x as [s| | |s m e]; try discriminate.
  - intros _. split; reflexivity.
  - intros H. unfold lit_1_0 in H.
    set (E0 := Z.min e (-149)).
    apply (SFabs_leb_scaled s false m _ e (-52) E0) in H; [|lia|lia].
    assert (Hle : Zpos m * 2 ^ (e - E0) <= 8388608 * 2 ^ (-23 - E0)).
    { replace (4503599627370496 * 2 ^ (-52 - E0)) with (8388608 * 2 ^ (-23 - E0)) in H; [exact H|].
      change 8388608 with (2 ^ 23). change 4503599627370496 with (2 ^ 52).
      rewrite <- !Z.pow_add_r by lia. f_equal. lia. }
    pose proof (binary_round_bound 24 128 ltac:(lia) s m e 8388608 (-23) E0
                  eq_refl ltac:(lia) ltac:(lia)) as HR.
    assert (Hf : fexp 24 128 (Zpos (digits2_pos m) + e) >= E0).
    { unfold fexp, emin. lia. }
    specialize (HR Hf Hle). unfold astype_float32.
    destruct (binary_round 24 128 s m e) as [s'| | |s' m' e']; try contradiction.
    + split; reflexivity.
    + destruct HR as (_ & Hb & He & Hv). split; [exact Hb|].
      apply (SFabs_leb_scaled s' false m' _ e' (-23) E0); [lia|lia|exact Hv].
Qed.

Lemma f32_mul_le (x a : spec_float) :
  is_float32 x = true -> is_float32 a = true ->
  SFabs_leb x f32_one = true ->
  is_float32 (f32_mul x a) = true /\ SFabs_leb (f32_mul x a) a = true.
Proof.
  intros Hfx Hfa Hx.
  destruct x as [s| | |s m e]; try discriminate;
    destruct a as [sa| | |sa ma ea]; try discriminate;
    try (split; reflexivity).
  cbn [is_float32] in Hfx, Hfa.
  unfold f32_one in Hx.
  set (e0 := Z.min e (-23)).
  apply (SFabs_leb_scaled s false m _ e (-23) e0) in Hx; [|lia|lia].
  assert (He : e <= 0 /\ Zpos m <= 2 ^ (- e)).
  { assert (Hp : 0 < 2 ^ (e - e0)) by (apply Z.pow_pos_nonneg; lia).
    assert (H1 : 2 ^ (e - e0) <= 8388608 * 2 ^ (-23 - e0)) by nia.
    change 8388608 with (2 ^ 23) in *.
    rewrite <- Z.pow_add_r in H1, Hx by lia.
    assert (H2 : e - e0 <= 23 + (-23 - e0)).
    { apply (Z.pow_le_mono_r_iff 2); lia. }
    split; [lia|].
    replace (23 + (-23 - e0)) with ((- e) + (e - e0)) in Hx by lia.
    rewrite Z.pow_add_r in Hx by lia. nia. }
  destruct He as [He Hm].
  unfold f32_mul, SFmul.
  pose proof (binary_round_aux_bound 24 128 ltac:(lia) (xorb s sa)
                (m * ma) (e + ea) ma ea (e + ea)) as HR.
  assert (Hpre : e + ea <= fexp 24 128 (Zpos (digits2_pos (m * ma)) + (e + ea))).
  { destruct (proj1 (bounded_spec 24 128 m e) Hfx) as [Hcx _].
    destruct (proj1 (bounded_spec 24 128 ma ea) Hfa) as [Hca _].
    destruct (digits2_pos_bounds m) as [Hm1 _].
    destruct (digits2_pos_bounds ma) as [Ha1 _].
    assert (Hdm : 0 < Zpos (digits2_pos m)) by lia.
    assert (Hda : 0 < Zpos (digits2_pos ma)) by lia.
    assert (Hd : Zpos (digits2_pos m) + Zpos (digits2_pos ma) - 1
                 <= Zpos (digits2_pos (m * ma))).
    { replace (Zpos (digits2_pos m) + Zpos (digits2_pos ma) - 1)
        with ((Zpos (digits2_pos m) - 1) + (Zpos (digits2_pos ma) - 1) + 1) by lia.
      apply digits_ge_of_pow_le.
      rewrite Z.pow_add_r, Pos2Z.inj_mul by lia.
      apply Z.mul_le_mono_nonneg; try assumption; apply Z.pow_nonneg; lia. }
    unfold fexp, emin in Hcx, Hca |- *. lia. }
  assert (Hv : Zpos (m * ma) * 2 ^ (e + ea - (e + ea)) <= Zpos ma * 2 ^ (ea - (e + ea))).
  { rewrite Z.sub_diag, Z.pow_0_r, Pos2Z.inj_mul.
    replace (ea - (e + ea)) with (- e) by lia. nia. }
  specialize (HR Hpre Hfa ltac:(lia) ltac:(lia) Hv).
  destruct (binary_round_aux 24 128 (xorb s sa) (Zpos (m * ma)) (e + ea) loc_Exact)
    as [s'| | |s' m' e']; try contradiction.
  + split; reflexivity.
  + destruct HR as (_ & Hb' & He' & Hv'). split; [exact Hb'|].
    apply (SFabs_leb_scaled s' sa m' ma e' ea (e + ea)); [lia|lia|exact Hv'].
Qed.

Lemma callback_sample_bound (a x : spec_float) :
  is_float32 (astype_float32 a) = true ->
  SFabs_leb x lit_1_0 = true ->
  is_float32 (f32_mul (astype_float32 x) (astype_float32 a)) = true /\
  SFabs_leb (f32_mul (astype_float32 x) (astype_float32 a)) (astype_float32 a) = true.
Proof.
  intros Ha Hx.
  destruct (astype_float32_le_one x Hx) as [Hf H1].
  exact (f32_mul_le _ _ Hf Ha H1).
Qed.

Lemma callback_scaled_nth (rng : nat -> spec_float) (a32 : spec_float)
    (frames i : nat) :
  (i < frames)%nat ->
  nth i (map (fun x => f32_mul x a32) (map astype_float32 (map rng (seq 0 frames))))
      S754_nan
  = f32_mul (astype_float32 (rng i)) a32.
Proof.
  intros Hi.
  rewrite (nth_indep _ S754_nan (f32_mul (astype_float32 (rng 0%nat)) a32))
    by (rewrite !length_map, length_seq; exact Hi).
  rewrite (map_nth (fun x => f32_mul x a32)), (map_nth astype_float32),
    (map_nth rng), seq_nth by exact Hi. reflexivity.
Qed.

(** C6 as stated fails for a profile whose amplitude float32 rounds up.
    The callback multiplies in float32: numpy casts [profile.amplitude] to
    float32 before the product.  With amplitude 0.1, the binary64 number
    [7205759403792794 / 2^56], and a draw of 1.0 the sample written is
    float32(0.1) = [13421773 / 2^27] = 0.100000001490116..., which is
    above the amplitude; the same happens with 0.3, the bound the source's
    comment names, whose float32 is [10066330 / 2^25]. *)
Lemma callback_amplitude_counterexample :
  (let profile := mkNoiseProfile 44100 (S754_finite false 7205759403792794 (-56)) in
   let rng := fun _ : nat => lit_1_0 in
   let sample := S754_finite false 13421773 (-27) in
   decimal_between 10000000000000000 10000000000000001 17 (amplitude profile) = true /\
   SFabs_leb (rng 0%nat) lit_1_0 = true /\
   _callback profile rng [S754_zero false] 1 EmptyString = ([], Return [sample]) /\
   SFabs_leb sample (amplitude profile) = false /\
   SFltb (amplitude profile) sample = true) /\
  (let profile := mkNoiseProfile 44100 lit_0_3 in
   let rng := fun _ : nat => lit_1_0 in
   let sample := S754_finite false 10066330 (-25) in
   SFabs_leb (rng 0%nat) lit_1_0 = true /\
   _callback profile rng [S754_zero false] 1 EmptyString = ([], Return [sample]) /\
   SFabs_leb sample (amplitude profile) = false /\
   SFltb (amplitude profile) sample = true).
Proof.
  cbv zeta. split.
  - split; [vm_compute; reflexivity|]. split; [vm_compute; reflexivity|].
    split; [vm_compute; reflexivity|]. split; vm_compute; reflexivity.
  - split; [vm_compute; reflexivity|].
    split; [vm_compute; reflexivity|]. split; vm_compute; reflexivity.
Qed.

(** C6, amended.  For every profile whose amplitude has a float32 value
    (it is finite and does not overflow), every frame count and a buffer
    of that many rows, the callback returns and replaces the channel by
    exactly that many samples.  Sample [i] is the float32 product of the
    [i]-th draw, cast to float32, and the profile's amplitude, cast to
    float32; it is a float32 value and, the draws being in [-1.0, 1.0]
    whatever their distribution, its magnitude is at most the float32
    amplitude.  It is at most the amplitude itself whenever the float32
    amplitude is, as it is for the profile the program constructs: the
    float32 of 0.12 is [16106127 / 2^27], below 0.12. *)
Theorem callback_fills_frames_within_float32_amplitude
    (profile : NoiseProfile) (rng : nat -> spec_float)
    (outdata : list spec_float) (frames : nat) (status : string) :
  is_float32 (astype_float32 (amplitude profile)) = true ->
  List.length outdata = frames ->
  (forall i, (i < frames)%nat -> SFabs_leb (rng i) lit_1_0 = true) ->
  let a32 := astype_float32 (amplitude profile) in
  exists out,
    snd (_callback profile rng outdata frames status) = Return out /\
    List.length out = frames /\
    (forall i, (i < frames)%nat ->
       nth i out S754_nan = f32_mul (astype_float32 (rng i)) a32 /\
       is_float32 (nth i out S754_nan) = true /\
       SFabs_leb (nth i out S754_nan) a32 = true /\
       (SFabs_leb a32 (amplitude profile) = true ->
        SFabs_leb (nth i out S754_nan) (amplitude profile) = true)) /\
    (profile = WHITE_NOISE_PROFILE ->
       amplitude profile = S754_finite false 8646911284551352 (-56) /\
       decimal_between 11999999999999999 12000000000000000 17
         (amplitude profile) = true /\
       a32 = S754_finite false 16106127 (-27) /\
       SFabs_leb a32 (amplitude profile) = true /\
       forall i, (i < frames)%nat ->
         SFabs_leb (nth i out S754_nan) (amplitude profile) = true).
Proof.
  intros Hamp Hlen Hrng. cbv zeta.
  set (a32 := astype_float32 (amplitude profile)) in *.
  set (out := map (fun x => f32_mul x a32) (map astype_float32 (map rng (seq 0 frames)))).
  assert (Hout : List.length out = frames).
  { unfold out. rewrite !length_map, length_seq. reflexivity. }
  assert (Hall : forall i, (i < frames)%nat ->
            nth i out S754_nan = f32_mul (astype_float32 (rng i)) a32 /\
            is_float32 (nth i out S754_nan) = true /\
            SFabs_leb (nth i out S754_nan) a32 = true).
  { intros i Hi. unfold out. rewrite callback_scaled_nth by exact Hi.
    split; [reflexivity|].
    exact (callback_sample_bound (amplitude profile) (rng i) Hamp (Hrng i Hi)). }
  exists out. split.
  { unfold _callback. cbn [snd]. fold a32. fold out.
    rewrite Hout, Hlen, Nat.eqb_refl. reflexivity. }
  split; [exact Hout|]. split.
  - intros i Hi. destruct (Hall i Hi) as (H1 & H2 & H3).
    split; [exact H1|]. split; [exact H2|]. split; [exact H3|].
    intros Ha. exact (SFabs_leb_trans _ _ _ H3 Ha).
  - intros Hp.
    assert (Ha : SFabs_leb a32 (amplitude profile) = true)
      by (unfold a32; rewrite Hp; vm_compute; reflexivity).
    split; [rewrite Hp; reflexivity|].
    split; [rewrite Hp; vm_compute; reflexivity|].
    split; [unfold a32; rewrite Hp; vm_compute; reflexivity|].
    split; [exact Ha|].
    intros i Hi. destruct (Hall i Hi) as (_ & _ & H3).
    exact (SFabs_leb_trans _ _ _ H3 Ha).
Qed.

Lemma callback_fills_frames_within_float32_amplitude_witness :
  let rng := fun i : nat =>
    match i with
    | O => lit_1_0
    | S O => S754_finite true 5404319552844595 (-53)
    | _ => S754_zero false
    end in
  is_float32 (astype_float32 (amplitude WHITE_NOISE_PROFILE)) = true /\
  exists out,
    snd (_callback WHITE_NOISE_PROFILE rng
           [S754_zero false; S754_zero false; S754_zero false] 3 EmptyString)
      = Return out /\
    List.length out = 3%nat /\
    SFabs_leb (nth 0 out S754_nan) (amplitude WHITE_NOISE_PROFILE) = true.
Proof.
  cbv zeta. split; [reflexivity|].
  destruct (callback_fills_frames_within_float32_amplitude
              WHITE_NOISE_PROFILE
              (fun i : nat =>
                 match i with
                 | O => lit_1_0
                 | S O => S754_finite true 5404319552844595 (-53)
                 | _ => S754_zero false
                 end)
              [S754_zero false; S754_zero false; S754_zero false] 3 EmptyString
              eq_refl eq_refl
              (fun i Hi =>
                 match i as j return
                   SFabs_leb (match j with
                              | O => lit_1_0
                              | S O => S754_finite true 5404319552844595 (-53)
                              | _ => S754_zero false
                              end) lit_1_0 = true
                 with
                 | O => eq_refl
                 | S O => eq_refl
                 | S (S _) => eq_refl
                 end))
    as (out & H1 & H2 & _ & H4).
  exists out. split; [exact H1|]. split; [exact H2|].
  destruct (H4 eq_refl) as (_ & _ & _ & _ & H5).
  exact (H5 0%nat ltac:(lia)).
Defined.

(** ** Sessions: what holds after any sequence of commands *)

Ltac inv_fields H :=
  destruct H as [[Hp Hti] Hl Hr Hrun Hn Hnd]; cbn in Hp, Hti, Hl, Hr, Hrun, Hn, Hnd.

Ltac inv_close :=
  constructor; [split|..]; cbn -[timer_text filter Z.sub]; intros;
  try reflexivity; try assumption; try discriminate; try congruence;
  try (unfold POMODORO_DURATION_SECONDS, SHORT_BREAK_DURATION_SECONDS in *; lia);
  try solve [intuition (try discriminate; try congruence;
                        try (unfold POMODORO_DURATION_SECONDS in *; lia))].

Lemma inv_init faults : app_inv (PomodoroApp.init faults).
Proof. inv_close. Qed.

Lemma inv_stop s : app_inv s -> app_inv (snd (WhiteNoisePlayer.stop s)).
Proof.
  intros H. destruct s as [tv wv st rs tr ti nd an ap df dn dop da dp so cs].
  inv_fields H. py_unfold.
  destruct st as [h|]; try (destruct df as [|[m|] [|[m'|] df]]); inv_close.
Qed.

Lemma inv_tick s : app_inv s -> app_inv (snd (fire_tick s)).
Proof.
  intros H. destruct s as [tv wv st rs tr ti nd an ap df dn dop da dp so cs].
  inv_fields H. py_unfold.
  destruct ap as [|e ap]; [inv_close|].
  destruct ti as [i|]; [|discriminate].
  injection Hp as -> ->.
  pose proof (Hti ltac:(discriminate)) as Htr. subst tr.
  destruct (Hrun eq_refl) as [_ Hpos].
  destruct (Z.leb_spec (rs - 1) 0).
  - destruct st as [h|]; try (destruct df as [|[m|] [|[m'|] df]]); inv_close.
  - inv_close.
Qed.

Lemma inv_toggle s : app_inv s -> app_inv (snd (click_toggle s)).
Proof.
  intros H. destruct s as [tv wv st rs tr ti nd an ap df dn dop da dp so cs].
  inv_fields H.
  destruct wv, tr, nd; py_unfold;
    destruct st as [h|]; try (destruct df as [|[m|] [|[m'|] df]]); inv_close.
Qed.

Lemma inv_cancel s :
  app_inv s -> app_inv (snd (PomodoroApp._stop_timer_internal s)).
Proof.
  intros H. destruct s as [tv wv st rs tr ti nd an ap df dn dop da dp so cs].
  inv_fields H. subst ap. py_unfold.
  destruct ti as [i|]; cbn -[timer_text]; rewrite ?Nat.eqb_refl; cbn -[timer_text];
    destruct st as [h|]; try (destruct df as [|[m|] [|[m'|] df]]); inv_close.
Qed.

Lemma inv_start_timer s d wants :
  0 < d <= POMODORO_DURATION_SECONDS ->
  app_inv s -> app_inv (snd (PomodoroApp._start_timer d wants s)).
Proof.
  intros Hd H. destruct s as [tv wv st rs tr ti nd an ap df dn dop da dp so cs].
  inv_fields H. subst ap. py_unfold.
  destruct ti as [i|]; cbn -[timer_text]; rewrite ?Nat.eqb_refl; cbn -[timer_text];
    destruct st as [h|]; try (destruct df as [|[m|] [|[m'|] df]]);
    cbn -[timer_text];
    destruct wants, wv; cbn -[timer_text];
    try (destruct df as [|[m1|] [|[m2|] df]]); inv_close.
Qed.

Lemma inv_on_close w :
  app_inv (win_app w) -> app_inv (win_app (snd (on_close w))).
Proof.
  intros H. unfold on_close, bind.
  pose proof (inv_cancel _ H) as H1.
  destruct (PomodoroApp._stop_timer_internal (win_app w)) as [[[]|e] a]; cbn in H1.
  - pose proof (inv_stop _ H1) as H2.
    destruct (WhiteNoisePlayer.stop a) as [[[]|e] a']; exact H2.
  - exact H1.
Qed.

Lemma inv_perform c w :
  app_inv (win_app w) -> app_inv (win_app (snd (perform c w))).
Proof.
  intros H. unfold perform. destruct (destroyed w); [exact H|].
  destruct c; cbn [in_window snd win_app].
  - apply inv_start_timer; [unfold POMODORO_DURATION_SECONDS; lia|exact H].
  - apply inv_start_timer;
      [unfold POMODORO_DURATION_SECONDS, SHORT_BREAK_DURATION_SECONDS; lia|exact H].
  - apply inv_toggle, H.
  - apply inv_tick, H.
  - apply inv_on_close, H.
Qed.

Lemma inv_session cmds w :
  app_inv (win_app w) -> app_inv (win_app (session cmds w)).
Proof.
  revert w. induction cmds as [|c cmds IH]; intros w H; [exact H|].
  cbn [session fold_left]. apply IH, inv_perform, H.
Qed.

Lemma inv_main faults cmds : app_inv (win_app (main faults cmds)).
Proof. unfold main. apply inv_session, inv_init. Qed.

Lemma remove_nat_self h : remove_nat h [h] = [].
Proof. unfold remove_nat. cbn. now rewrite Nat.eqb_refl. Qed.

Lemma remove_nat_not_in h l : ~ In h (remove_nat h l).
Proof.
  intros H. unfold remove_nat in H. apply filter_In in H.
  destruct H as [_ H]. now rewrite Nat.eqb_refl in H.
Qed.

Ltac hi_fields H :=
  destruct H as [Hf Hd Ho Ha Hi]; unfold no_leak in Ho; cbn in Hf, Hd, Ho, Ha, Hi.

Ltac hi_close :=
  constructor; unfold no_leak; cbn -[timer_text filter Z.sub remove_nat]; intros;
  rewrite ?remove_nat_self; cbn -[timer_text filter Z.sub remove_nat];
  try reflexivity; try assumption; try discriminate; try congruence; try lia;
  try solve [intuition (try discriminate; try congruence)].

Lemma hi_init : healthy_inv (PomodoroApp.init []).
Proof. hi_close. Qed.

Lemma hi_tick s :
  app_inv s -> healthy_inv s -> healthy_inv (snd (fire_tick s)).
Proof.
  intros Hinv H. destruct s as [tv wv st rs tr ti nd an ap df dn dop da dp so cs].
  destruct Hinv as [_ _ _ Hrun _ _]. cbn in Hrun.
  hi_fields H. subst df da. py_unfold.
  destruct ap as [|e ap]; [hi_close|].
  destruct tr; [|hi_close].
  destruct (Hrun eq_refl) as [_ Hpos].
  destruct (Z.leb_spec (rs - 1) 0); [|hi_close].
  destruct st as [h|]; subst dop; hi_close.
Qed.

Lemma hi_toggle s : healthy_inv s -> healthy_inv (snd (click_toggle s)).
Proof.
  intros H. destruct s as [tv wv st rs tr ti nd an ap df dn dop da dp so cs].
  hi_fields H. subst df da.
  destruct wv, tr, nd; py_unfold; destruct st as [h|]; subst dop; hi_close.
Qed.

Lemma hi_start_timer s d wants :
  healthy_inv s ->
  healthy_inv (snd (PomodoroApp._start_timer d wants s)) /\
  fst (PomodoroApp._start_timer d wants s) = Return tt.
Proof.
  intros H. destruct s as [tv wv st rs tr ti nd an ap df dn dop da dp so cs].
  hi_fields H. subst df da. py_unfold.
  destruct ti as [i|]; destruct st as [h|]; subst dop;
    destruct wants, wv; split; try reflexivity; hi_close.
Qed.

Lemma hi_on_close w :
  healthy_inv (win_app w) ->
  healthy_inv (win_app (snd (on_close w))) /\
  destroyed (snd (on_close w)) = true /\ fst (on_close w) = Return tt.
Proof.
  intros H. unfold on_close. destruct w as [s d]. cbn [win_app] in *.
  destruct s as [tv wv st rs tr ti nd an ap df dn dop da dp so cs].
  hi_fields H. subst df da. py_unfold.
  destruct ti as [i|]; destruct st as [h|]; subst dop;
    (split; [hi_close|split; reflexivity]).
Qed.

Lemma hi_perform c w :
  app_inv (win_app w) -> healthy_inv (win_app w) ->
  healthy_inv (win_app (snd (perform c w))) /\ fst (perform c w) = Return tt.
Proof.
  intros Hinv H. unfold perform.
  destruct (destroyed w); [split; [exact H|reflexivity]|].
  destruct c; cbn [in_window fst snd win_app].
  - apply hi_start_timer, H.
  - apply hi_start_timer, H.
  - split; [apply hi_toggle, H|].
    destruct (win_app w) as [tv wv st rs tr ti nd an ap df dn dop da dp so cs].
    hi_fields H. subst df. destruct wv, tr, nd; py_unfold; destruct st; reflexivity.
  - split; [apply hi_tick; assumption|].
    destruct (win_app w) as [tv wv st rs tr ti nd an ap df dn dop da dp so cs].
    hi_fields H. subst df. py_unfold.
    destruct ap; [reflexivity|]. destruct tr; [|reflexivity].
    destruct (rs - 1 <=? 0); [|reflexivity]. destruct st; reflexivity.
  - destruct (hi_on_close w H) as (H1 & _ & H3). split; assumption.
Qed.

Lemma hi_session cmds w :
  app_inv (win_app w) -> healthy_inv (win_app w) ->
  healthy_inv (win_app (session cmds w)).
Proof.
  revert w. induction cmds as [|c cmds IH]; intros w Hinv H; [exact H|].
  cbn [session fold_left]. apply IH; [apply inv_perform, Hinv|].
  apply hi_perform; assumption.
Qed.

Lemma hi_main cmds : healthy_inv (win_app (main [] cmds)).
Proof. unfold main. apply hi_session; [apply inv_init|apply hi_init]. Qed.

(** X1.  After any sequence of commands, whatever the device does, the Tk
    table holds at most one scheduled tick, the one [timer_id] names, and
    a tick is scheduled exactly while [timer_running] is true: starting
    again never leaves two countdowns ticking. *)
Theorem session_schedules_one_tick (faults : list (option string))
    (cmds : list command) :
  let s := win_app (main faults cmds) in
  after_pending s =
    match timer_id s with Some i => [(i, 1000)] | None => [] end /\
  (timer_running s = true <-> timer_id s <> None) /\
  (List.length (after_pending s) <= 1)%nat.
Proof.
  cbv zeta. destruct (inv_main faults cmds) as [[Hp Hti] _ _ Hrun _ _].
  split; [exact Hp|]. split.
  - split; [intros H; apply (Hrun H)|exact Hti].
  - rewrite Hp. destruct (timer_id _); cbn; lia.
Qed.

(** X2.  After any sequence of commands, whatever the device does, the
    label is the text of [remaining_seconds], which lies between 0 and
    1500 and is positive while the timer runs. *)
Theorem session_label_shows_remaining (faults : list (option string))
    (cmds : list command) :
  let s := win_app (main faults cmds) in
  timer_var s = timer_text (remaining_seconds s) /\
  0 <= remaining_seconds s <= POMODORO_DURATION_SECONDS /\
  (timer_running s = true -> 0 < remaining_seconds s).
Proof.
  cbv zeta. destruct (inv_main faults cmds) as [_ Hl Hr Hrun _ _].
  split; [exact Hl|]. split; [exact Hr|]. intros H. apply (Hrun H).
Qed.

(** X3.  After any sequence of commands, whatever the device does, the
    player holds a stream only while the timer runs a work interval with
    the box checked; and [noise_desired] is never true on a stopped
    timer. *)
Theorem session_noise_needs_running_work (faults : list (option string))
    (cmds : list command) :
  let s := win_app (main faults cmds) in
  (_stream s <> None ->
     timer_running s = true /\ noise_desired s = true /\
     white_noise_var s = true) /\
  (noise_desired s = true -> timer_running s = true).
Proof.
  cbv zeta. destruct (inv_main faults cmds) as [_ _ _ _ Hn Hd].
  split; assumption.
Qed.

(** X4.  On a device that raises nothing, after any sequence of commands:
    every callback returns; the player holds a stream exactly when the
    timer runs, the interval wants noise and the box is checked; the
    device has that stream, open and active, and no other; and a stopped
    timer shows 00:00. *)
Theorem healthy_session_noise_iff_desired (cmds : list command) :
  let s := win_app (main [] cmds) in
  (forall c, fst (perform c (main [] cmds)) = Return tt) /\
  (_stream s <> None <->
     timer_running s && noise_desired s && white_noise_var s = true) /\
  dev_open s = match _stream s with Some h => [h] | None => [] end /\
  dev_active s = dev_open s /\
  (timer_running s = false ->
     remaining_seconds s = 0 /\ timer_var s = "00:00"%string).
Proof.
  cbv zeta.
  destruct (hi_main cmds) as [Hf Hd Ho Ha Hi].
  destruct (inv_main [] cmds) as [_ Hl _ _ Hn _].
  split.
  { intros c. apply hi_perform; [apply inv_main|apply hi_main]. }
  split.
  - split; [|exact Hd].
    intros H. destruct (Hn H) as (-> & -> & ->). reflexivity.
  - split; [exact Ho|]. split; [exact Ha|].
    intros H. split; [exact (Hi H)|]. rewrite Hl, (Hi H). reflexivity.
Qed.

(** ** The label *)

Lemma labels_checked : forallb label_ok (np_arange 6000) = true.
Proof. vm_compute. reflexivity. Qed.

Lemma np_arange_in_Z num r : 0 <= r < num -> In r (np_arange num).
Proof.
  intros H. rewrite <- (Z2Nat.id r) by lia. apply np_arange_in. lia.
Qed.

(** X5.  For every remaining time from 0 to 5999 seconds the label is
    five characters, minutes and seconds in two digits each around a
    colon, that read back as that time, so that different times show
    different labels; a time of 0 or below shows 00:00. *)
Theorem timer_label_reads_back (r : Z) :
  (0 <= r < 6000 -> label_seconds (timer_text r) = Some r) /\
  (forall r', 0 <= r < 6000 -> 0 <= r' < 6000 ->
     timer_text r = timer_text r' -> r = r') /\
  (r <= 0 -> timer_text r = "00:00"%string).
Proof.
  assert (Hback : forall x, 0 <= x < 6000 -> label_seconds (timer_text x) = Some x).
  { intros x H. pose proof labels_checked as Hc. rewrite forallb_forall in Hc.
    specialize (Hc x (np_arange_in_Z 6000 x H)). unfold label_ok in Hc.
    destruct (label_seconds (timer_text x)) as [x'|]; [|discriminate].
    apply Z.eqb_eq in Hc. now subst. }
  split; [apply Hback|]. split.
  - intros r' H H' E. pose proof (Hback r H) as H1. rewrite E, (Hback r' H') in H1.
    now injection H1.
  - intros H. unfold timer_text. replace (Z.max r 0) with 0 by lia. reflexivity.
Qed.

Lemma timer_label_reads_back_witness :
  timer_text 742 = "12:22"%string /\
  label_seconds (timer_text 742) = Some 742 /\
  timer_text (-3) = "00:00"%string.
Proof.
  split; [reflexivity|].
  split; [apply (proj1 (timer_label_reads_back 742)); lia|].
  apply (proj2 (proj2 (timer_label_reads_back (-3)))); lia.
Defined.

(** ** Closing the window *)

(** X6.  [on_close] always leaves the timer stopped, no tick named and the
    player without a handle.  The window is destroyed when the call
    returns, which it does whenever the player was idle or the device
    raises nothing; when the device's stop or close raises, the exception
    leaves [on_close] before [root.destroy()] and the window stays as it
    was.  A second close request then always returns and destroys it. *)
Theorem on_close_destroys_when_stop_returns (w : Window) :
  let r := fst (on_close w) in
  let w' := snd (on_close w) in
  _stream (win_app w') = None /\
  timer_running (win_app w') = false /\ timer_id (win_app w') = None /\
  (r = Return tt -> destroyed w' = true) /\
  (r <> Return tt -> destroyed w' = destroyed w) /\
  (_stream (win_app w) = None \/ dev_faults (win_app w) = [] -> r = Return tt) /\
  fst (on_close w') = Return tt /\ destroyed (snd (on_close w')) = true.
Proof.
  cbv zeta. unfold on_close. destruct w as [s d]. cbn [win_app destroyed].
  destruct s as [tv wv st rs tr ti nd an ap df dn dop da dp so cs].
  py_unfold.
  destruct ti as [i|]; destruct st as [h|];
    try (destruct df as [|[m|] [|[m'|] df]]); cbn -[filter];
    repeat split; intros; try discriminate; try congruence;
    repeat match goal with H : _ \/ _ |- _ => destruct H end;
    try discriminate; try reflexivity.
Qed.

Lemma on_close_destroys_when_stop_returns_witness :
  let w := main [None; None; Some "device lost"%string] [ClickPomodoro] in
  _stream (win_app w) = Some 0%nat /\
  fst (on_close w) = Raise (Exception "device lost") /\
  destroyed (snd (on_close w)) = false /\
  _stream (win_app (snd (on_close w))) = None /\
  destroyed (snd (on_close (snd (on_close w)))) = true.
Proof.
  cbv zeta.
  pose proof (on_close_destroys_when_stop_returns
                (main [None; None; Some "device lost"%string] [ClickPomodoro])) as H.
  cbv zeta in H. destruct H as (H1 & _ & _ & _ & H5 & _ & _ & H8).
  split; [reflexivity|]. split; [reflexivity|].
  split; [rewrite H5; [reflexivity|discriminate]|].
  split; [exact H1|exact H8].
Defined.

(** ** The chime thread *)

(** X7.  [_play_ding] never raises: when [sd.play] fails it prints
    "Unable to play ding: ..." and plays nothing, otherwise it plays the
    26460-sample buffer at 44100 Hz and prints nothing.  Either way it
    touches nothing of the application but the output, and opens or
    closes no stream. *)
Theorem play_ding_contains_device_failure
    (np_sin : spec_float -> spec_float) (s : App) :
  let s' := snd (_play_ding np_sin s) in
  fst (_play_ding np_sin s) = Return tt /\
  set_stdout (stdout s) (set_dev_played (dev_played s)
     (set_dev (dev_faults s) (dev_next s) (dev_open s) (dev_active s) s'))
    = s /\
  dev_next s' = dev_next s /\
  dev_open s' = dev_open s /\ dev_active s' = dev_active s /\
  (forall msg rest, dev_faults s = Some msg :: rest ->
     stdout s' = stdout s ++ [("Unable to play ding: " ++ msg)%string] /\
     dev_played s' = dev_played s) /\
  (hd None (dev_faults s) = None ->
     stdout s' = stdout s /\
     dev_played s' = dev_played s ++
       [(map astype_float32 (ding_waveform np_sin 26460), 44100)]).
Proof.
  cbv zeta. unfold _play_ding.
  replace ding_samples with (Some 26460) by (vm_compute; reflexivity).
  destruct s as [tv wv st rs tr ti nd an ap df dn dop da dp so cs].
  unfold sd_play. py_unfold.
  destruct df as [|[m|] df]; cbn -[ding_waveform];
    repeat split; intros; try discriminate;
    repeat match goal with H : _ :: _ = _ :: _ |- _ => injection H as <- <- end;
    reflexivity.
Qed.

Lemma play_ding_contains_device_failure_witness :
  let s := PomodoroApp.init [Some "no output device"%string] in
  fst (_play_ding (fun x => x) s) = Return tt /\
  stdout (snd (_play_ding (fun x => x) s)) =
    ["Unable to play ding: no output device"%string] /\
  dev_played (snd (_play_ding (fun x => x) s)) = [].
Proof.
  cbv zeta.
  pose proof (play_ding_contains_device_failure (fun x => x)
                (PomodoroApp.init [Some "no output device"%string])) as H.
  cbv zeta in H. destruct H as (H1 & _ & _ & _ & _ & H6 & _).
  split; [exact H1|]. exact (H6 _ _ eq_refl).
Defined.

(** ** The noise toggle *)

(** X8.  Checking the box while the player is idle never raises and
    changes no timer field.  Outside a running work interval it starts
    nothing.  Inside one it starts the noise: if the stream cannot be
    constructed the handler prints "Unable to start white noise: ..." and
    the player stays idle, and if it can the player holds the new
    stream. *)
Theorem toggle_on_never_raises (s : App) :
  white_noise_var s = false -> _stream s = None ->
  let s' := snd (click_toggle s) in
  fst (click_toggle s) = Return tt /\
  white_noise_var s' = true /\
  remaining_seconds s' = remaining_seconds s /\
  timer_running s' = timer_running s /\ timer_id s' = timer_id s /\
  after_pending s' = after_pending s /\ timer_var s' = timer_var s /\
  noise_desired s' = noise_desired s /\
  (timer_running s && noise_desired s = false ->
     _stream s' = None /\ dev_next s' = dev_next s) /\
  (timer_running s && noise_desired s = true ->
     (forall msg rest, dev_faults s = Some msg :: rest ->
        _stream s' = None /\
        stdout s' = stdout s ++ [("Unable to start white noise: " ++ msg)%string]) /\
     (hd None (dev_faults s) = None -> _stream s' = Some (dev_next s))).
Proof.
  cbv zeta. intros Hv Hs.
  destruct s as [tv wv st rs tr ti nd an ap df dn dop da dp so cs].
  cbn in Hv, Hs. subst wv st.
  destruct tr, nd; py_unfold;
    try (destruct df as [|[m|] [|[m'|] df]]); cbn;
    repeat split; intros; try discriminate;
    repeat match goal with H : _ :: _ = _ :: _ |- _ => injection H as <- <- end;
    reflexivity.
Qed.

Lemma toggle_on_never_raises_witness :
  let s := win_app (main [None; None; None; None; Some "device busy"%string]
                      [ClickPomodoro; ClickToggle]) in
  white_noise_var s = false /\ _stream s = None /\ timer_running s = true /\
  fst (click_toggle s) = Return tt /\
  _stream (snd (click_toggle s)) = None /\
  stdout (snd (click_toggle s)) = ["Unable to start white noise: device busy"%string] /\
  remaining_seconds (snd (click_toggle s)) = 1500.
Proof.
  cbv zeta.
  pose proof (toggle_on_never_raises
    (win_app (main [None; None; None; None; Some "device busy"%string]
                [ClickPomodoro; ClickToggle])) eq_refl eq_refl) as H.
  cbv zeta in H. destruct H as (H1 & _ & H3 & _ & _ & _ & _ & _ & _ & H10).
  destruct (H10 eq_refl) as [Hfail _].
  destruct (Hfail "device busy"%string [] eq_refl) as [Hs Ho].
  split; [reflexivity|]. split; [reflexivity|]. split; [reflexivity|].
  split; [exact H1|]. split; [exact Hs|]. split; [exact Ho|].
  rewrite H3. reflexivity.
Defined.

(** X9.  During a running work interval, on a device that raises nothing,
    unchecking the box and checking it again restarts the noise on a
    newly constructed stream, open and active, with the old stream, if
    any, closed; the countdown is not touched.  This holds also when the
    handle held was that of a stream that had failed to start. *)
Theorem toggle_off_on_restarts_noise (s : App) :
  white_noise_var s = true -> timer_running s = true -> noise_desired s = true ->
  dev_faults s = [] ->
  let s2 := snd (click_toggle (snd (click_toggle s))) in
  fst (click_toggle s) = Return tt /\
  fst (click_toggle (snd (click_toggle s))) = Return tt /\
  white_noise_var s2 = true /\
  _stream s2 = Some (dev_next s) /\ In (dev_next s) (dev_active s2) /\
  In (dev_next s) (dev_open s2) /\
  (forall h, _stream s = Some h -> h <> dev_next s ->
     ~ In h (dev_open s2) /\ ~ In h (dev_active s2)) /\
  remaining_seconds s2 = remaining_seconds s /\
  timer_running s2 = true /\ timer_id s2 = timer_id s /\
  after_pending s2 = after_pending s.
Proof.
  cbv zeta. intros Hv Hr Hd Hf.
  destruct s as [tv wv st rs tr ti nd an ap df dn dop da dp so cs].
  cbn in Hv, Hr, Hd, Hf. subst wv tr nd df. py_unfold.
  destruct st as [h|]; cbn;
    repeat split; try reflexivity; try (apply in_or_app; right; left; reflexivity);
    intros; try discriminate.
  - injection H as <-. intros Hin. apply in_app_or in Hin.
    destruct Hin as [Hin|[Hin|[]]]; [exact (remove_nat_not_in _ _ Hin)|congruence].
  - injection H as <-. intros Hin. apply in_app_or in Hin.
    destruct Hin as [Hin|[Hin|[]]]; [|congruence].
    rewrite remove_nat_idem in Hin. exact (remove_nat_not_in _ _ Hin).
Qed.

Lemma toggle_off_on_restarts_noise_witness :
  let s := win_app (main [None; Some "Error starting stream"%string]
                      [ClickPomodoro]) in
  _stream s = Some 0%nat /\ dev_active s = [] /\ dev_faults s = [] /\
  _stream (snd (click_toggle (snd (click_toggle s)))) = Some 1%nat /\
  In 1%nat (dev_active (snd (click_toggle (snd (click_toggle s))))) /\
  ~ In 0%nat (dev_open (snd (click_toggle (snd (click_toggle s))))).
Proof.
  cbv zeta.
  pose proof (toggle_off_on_restarts_noise
    (win_app (main [None; Some "Error starting stream"%string] [ClickPomodoro]))
    eq_refl eq_refl eq_refl eq_refl) as H.
  cbv zeta in H. destruct H as (_ & _ & _ & H4 & H5 & _ & H7 & _).
  split; [reflexivity|]. split; [reflexivity|]. split; [reflexivity|].
  split; [exact H4|]. split; [exact H5|].
  exact (proj1 (H7 0%nat eq_refl ltac:(discriminate))).
Defined.

(** ** The player and the device *)

(** X10.  What [stop] does with a held stream depends on the device.  If
    the stream's [stop()] raises, [close()] is never called: the handle is
    dropped but the stream stays open, and active, on the device.  If
    [stop()] returns and [close()] raises, the stream is stopped and
    stays open.  Only when both return is the stream gone from the
    device.  The handle is [None] in all three cases. *)
Theorem stop_failure_skips_close (s : App) (h : nat) :
  _stream s = Some h ->
  let r := fst (WhiteNoisePlayer.stop s) in
  let s' := snd (WhiteNoisePlayer.stop s) in
  (forall msg rest, dev_faults s = Some msg :: rest ->
     r = Raise (Exception msg) /\ _stream s' = None /\ dev_faults s' = rest /\
     dev_open s' = dev_open s /\ dev_active s' = dev_active s) /\
  (forall msg rest, dev_faults s = None :: Some msg :: rest ->
     r = Raise (Exception msg) /\ _stream s' = None /\ dev_faults s' = rest /\
     dev_open s' = dev_open s /\ dev_active s' = remove_nat h (dev_active s)) /\
  (hd None (dev_faults s) = None -> hd None (tl (dev_faults s)) = None ->
     r = Return tt /\ _stream s' = None /\
     dev_open s' = remove_nat h (dev_open s) /\
     dev_active s' = remove_nat h (dev_active s) /\
     ~ In h (dev_open s') /\ ~ In h (dev_active s')).
Proof.
  cbv zeta. intros Hs.
  destruct s as [tv wv st rs tr ti nd an ap df dn dop da dp so cs].
  cbn in Hs. subst st. py_unfold.
  destruct df as [|[m|] [|[m'|] df]]; cbn;
    repeat split; intros; try discriminate;
    repeat match goal with
           | H : _ :: _ = _ :: _ |- _ => injection H; clear H; intros; subst
           end;
    rewrite ?remove_nat_idem; try reflexivity; try apply remove_nat_not_in.
Qed.

Lemma stop_failure_skips_close_witness :
  let s := win_app (main [None; None; Some "device lost"%string] [ClickPomodoro]) in
  _stream s = Some 0%nat /\ dev_open s = [0%nat] /\
  fst (WhiteNoisePlayer.stop s) = Raise (Exception "device lost") /\
  _stream (snd (WhiteNoisePlayer.stop s)) = None /\
  dev_open (snd (WhiteNoisePlayer.stop s)) = [0%nat] /\
  dev_active (snd (WhiteNoisePlayer.stop s)) = [0%nat].
Proof.
  cbv zeta.
  pose proof (stop_failure_skips_close
    (win_app (main [None; None; Some "device lost"%string] [ClickPomodoro]))
    0%nat eq_refl) as H.
  cbv zeta in H. destruct H as (H1 & _ & _).
  destruct (H1 "device lost"%string [] eq_refl) as (Hr & Hs & _ & Ho & Ha).
  split; [reflexivity|]. split; [reflexivity|]. split; [exact Hr|].
  split; [exact Hs|]. split; [rewrite Ho; reflexivity|rewrite Ha; reflexivity].
Defined.

Lemma remove_nat_fresh h l : ~ In h l -> remove_nat h (l ++ [h]) = l.
Proof.
  intros Hn. unfold remove_nat. rewrite filter_app. cbn.
  rewrite Nat.eqb_refl. cbn. rewrite app_nil_r.
  induction l as [|x l IH]; [reflexivity|]. cbn.
  destruct (Nat.eqb_spec x h) as [->|Hne]; [elim Hn; now left|].
  cbn. f_equal. apply IH. intros Hi. apply Hn. now right.
Qed.

(** X11.  On a device that raises nothing, [start] on an idle player
    constructs one stream and starts it, and the [stop] that follows
    stops and closes that very stream: apart from the device's stream
    counter and the log of calls, the state is as before [start]. *)
Theorem start_then_stop_releases_stream (s : App) :
  _stream s = None -> dev_faults s = [] ->
  let s1 := snd (WhiteNoisePlayer.start s) in
  let s2 := snd (WhiteNoisePlayer.stop s1) in
  fst (WhiteNoisePlayer.start s) = Return tt /\
  _stream s1 = Some (dev_next s) /\
  In (dev_next s) (dev_open s1) /\ In (dev_next s) (dev_active s1) /\
  fst (WhiteNoisePlayer.stop s1) = Return tt /\
  _stream s2 = None /\
  ~ In (dev_next s) (dev_open s2) /\ ~ In (dev_next s) (dev_active s2) /\
  dev_next s2 = S (dev_next s) /\
  (~ In (dev_next s) (dev_open s) -> dev_open s2 = dev_open s) /\
  (~ In (dev_next s) (dev_active s) -> dev_active s2 = dev_active s) /\
  set_dev (dev_faults s) (dev_next s) (dev_open s) (dev_active s)
    (set_calls (calls s) s2) = s.
Proof.
  cbv zeta. intros Hs Hf.
  destruct s as [tv wv st rs tr ti nd an ap df dn dop da dp so cs].
  cbn in Hs, Hf. subst st df. py_unfold. cbn.
  repeat split; try reflexivity;
    try (apply in_or_app; right; left; reflexivity); try apply remove_nat_not_in.
  - intros Hn. now apply remove_nat_fresh.
  - intros Hn. rewrite remove_nat_idem. now apply remove_nat_fresh.
Qed.

Lemma start_then_stop_releases_stream_witness :
  let s := PomodoroApp.init [] in
  _stream (snd (WhiteNoisePlayer.start s)) = Some 0%nat /\
  dev_open (snd (WhiteNoisePlayer.stop (snd (WhiteNoisePlayer.start s)))) = [] /\
  dev_active (snd (WhiteNoisePlayer.stop (snd (WhiteNoisePlayer.start s)))) = [].
Proof.
  cbv zeta.
  pose proof (start_then_stop_releases_stream (PomodoroApp.init [])
                eq_refl eq_refl) as H.
  cbv zeta in H.
  destruct H as (_ & H2 & _ & _ & _ & _ & _ & _ & _ & H10 & H11 & _).
  split; [exact H2|].
  split; [apply H10|apply H11]; intros [].
Defined.

(** ** Starting an interval *)

Lemma start_timer_split d wants s :
  PomodoroApp._start_timer d wants s =
  (PomodoroApp._stop_timer_internal ;; start_timer_body d wants) s.
Proof. reflexivity. Qed.

Lemma start_timer_body_idle d wants s :
  _stream s = None ->
  fst (start_timer_body d wants s) = Return tt /\
  timer_running (snd (start_timer_body d wants s)) = true /\
  remaining_seconds (snd (start_timer_body d wants s)) = d /\
  timer_var (snd (start_timer_body d wants s)) = timer_text d /\
  noise_desired (snd (start_timer_body d wants s)) = wants /\
  timer_id (snd (start_timer_body d wants s)) = Some (after_next s) /\
  after_pending (snd (start_timer_body d wants s)) =
    after_pending s ++ [(after_next s, 1000)] /\
  after_next (snd (start_timer_body d wants s)) = S (after_next s).
Proof.
  destruct s as [tv wv st rs tr ti nd an ap df dn dop da dp so cs].
  cbn. intros ->. unfold start_timer_body. py_unfold.
  destruct wants, wv; cbn -[timer_text];
    try (destruct df as [|[m1|] [|[m2|] df]]); repeat split.
Qed.

Lemma cancel_outcome s :
  let r := fst (PomodoroApp._stop_timer_internal s) in
  let s' := snd (PomodoroApp._stop_timer_internal s) in
  _stream s' = None /\ timer_running s' = false /\ noise_desired s' = false /\
  timer_id s' = None /\
  after_next s' = after_next s /\ white_noise_var s' = white_noise_var s /\
  (forall e, r = Raise e ->
     remaining_seconds s' = remaining_seconds s /\ timer_var s' = timer_var s).
Proof.
  cbv zeta.
  destruct s as [tv wv st rs tr ti nd an ap df dn dop da dp so cs].
  py_unfold.
  destruct ti as [i|]; destruct st as [h|];
    try (destruct df as [|[m|] [|[m'|] df]]); cbn -[timer_text filter];
    repeat split; intros; try discriminate; reflexivity.
Qed.

Lemma cancel_returns s :
  _stream s = None \/ dev_faults s = [] ->
  fst (PomodoroApp._stop_timer_internal s) = Return tt.
Proof.
  destruct s as [tv wv st rs tr ti nd an ap df dn dop da dp so cs].
  py_unfold. intros [Hx|Hx]; cbn in Hx; subst;
    destruct ti; try destruct st; reflexivity.
Qed.

Lemma cancel_clears_schedule s :
  sched_ok s -> after_pending (snd (PomodoroApp._stop_timer_internal s)) = [].
Proof.
  unfold sched_ok.
  destruct s as [tv wv st rs tr ti nd an ap df dn dop da dp so cs].
  cbn. intros [-> _]. py_unfold.
  destruct ti as [i|]; cbn -[timer_text]; rewrite ?Nat.eqb_refl; cbn -[timer_text];
    destruct st as [h|]; try (destruct df as [|[m|] [|[m'|] df]]); reflexivity.
Qed.

(** X12.  When a start command raises, which only the device's stop or
    close of the stream held can cause, the timer is left stopped with
    no tick named and the player idle, the remaining time and the label
    being those of before; and the next start command, whatever the
    device does, returns with the timer running on the new duration. *)
Theorem failed_start_stops_timer_and_retry_succeeds
    (s : App) (d : Z) (wants : bool) (e : exn) :
  fst (PomodoroApp._start_timer d wants s) = Raise e ->
  let s' := snd (PomodoroApp._start_timer d wants s) in
  _stream s <> None /\ dev_faults s <> [] /\
  timer_running s' = false /\ noise_desired s' = false /\
  timer_id s' = None /\ _stream s' = None /\
  remaining_seconds s' = remaining_seconds s /\ timer_var s' = timer_var s /\
  (forall d' wants',
     fst (PomodoroApp._start_timer d' wants' s') = Return tt /\
     timer_running (snd (PomodoroApp._start_timer d' wants' s')) = true /\
     remaining_seconds (snd (PomodoroApp._start_timer d' wants' s')) = d').
Proof.
  cbv zeta. rewrite start_timer_split. unfold bind at 1 2 3 4 5 6 7 8 9 10.
  pose proof (cancel_outcome s) as H. cbv zeta in H.
  pose proof (cancel_returns s) as Hret.
  destruct (PomodoroApp._stop_timer_internal s) as [[[]|e1] s1].
  - cbn [fst snd] in H. destruct H as (Hs & _).
    destruct (start_timer_body_idle d wants s1 Hs) as [Hr _].
    intros Hc. rewrite Hr in Hc. discriminate.
  - cbn [fst snd] in *. intros _.
    destruct H as (Hs & Hr & Hd & Hi & _ & _ & Hx).
    destruct (Hx e1 eq_refl) as [Hrem Hl].
    split; [intros Hn; specialize (Hret (or_introl Hn)); discriminate|].
    split; [intros Hn; specialize (Hret (or_intror Hn)); discriminate|].
    repeat (split; [assumption|]).
    intros d' wants'. rewrite start_timer_split. unfold bind.
    pose proof (cancel_outcome s1) as H'. cbv zeta in H'.
    pose proof (cancel_returns s1 (or_introl Hs)) as Hret'.
    destruct (PomodoroApp._stop_timer_internal s1) as [[[]|e2] s2];
      [|discriminate].
    cbn [fst snd] in H'. destruct H' as (Hs2 & _).
    destruct (start_timer_body_idle d' wants' s2 Hs2) as (H1 & H2 & H3 & _).
    repeat split; assumption.
Qed.

Lemma failed_start_stops_timer_and_retry_succeeds_witness :
  let s := run_ticks 758
             (win_app (main [None; None; Some "device lost"%string] [ClickPomodoro])) in
  fst (PomodoroApp.start_break s) = Raise (Exception "device lost") /\
  timer_running (snd (PomodoroApp.start_break s)) = false /\
  remaining_seconds (snd (PomodoroApp.start_break s)) = 742 /\
  fst (PomodoroApp.start_break (snd (PomodoroApp.start_break s))) = Return tt /\
  remaining_seconds (snd (PomodoroApp.start_break (snd (PomodoroApp.start_break s))))
    = 300.
Proof.
  cbv zeta.
  assert (Hr : fst (PomodoroApp._start_timer SHORT_BREAK_DURATION_SECONDS false
                 (run_ticks 758
                    (win_app (main [None; None; Some "device lost"%string]
                                [ClickPomodoro]))))
               = Raise (Exception "device lost")) by (vm_compute; reflexivity).
  pose proof (failed_start_stops_timer_and_retry_succeeds _ _ _ _ Hr) as H.
  cbv zeta in H. destruct H as (_ & _ & H3 & _ & _ & _ & H7 & _ & H9).
  destruct (H9 SHORT_BREAK_DURATION_SECONDS false) as (Ha & _ & Hc).
  split; [exact Hr|]. split; [exact H3|].
  split; [unfold PomodoroApp.start_break; rewrite H7; vm_compute; reflexivity|].
  split; [exact Ha|exact Hc].
Defined.

(** X13.  A start command returns whenever the player is idle or the
    device raises nothing, and when it returns the old countdown is
    gone: the timer runs on the new duration, the label shows it, the
    interval's wish for noise is recorded, exactly one tick is scheduled,
    the new one, and the player is idle unless the interval wants noise
    and the box is checked. *)
Theorem start_replaces_countdown (s : App) (d : Z) (wants : bool) :
  let r := fst (PomodoroApp._start_timer d wants s) in
  let s' := snd (PomodoroApp._start_timer d wants s) in
  (_stream s = None \/ dev_faults s = [] -> r = Return tt) /\
  (r = Return tt ->
     timer_running s' = true /\ remaining_seconds s' = d /\
     timer_var s' = timer_text d /\ noise_desired s' = wants /\
     timer_id s' = Some (after_next s) /\
     after_next s' = S (after_next s) /\
     (sched_ok s -> after_pending s' = [(after_next s, 1000)]) /\
     (wants && white_noise_var s = false -> _stream s' = None)).
Proof.
  cbv zeta. rewrite start_timer_split. unfold bind.
  pose proof (cancel_outcome s) as H. cbv zeta in H.
  pose proof (cancel_clears_schedule s) as Hc.
  pose proof (cancel_returns s) as Hret.
  destruct (PomodoroApp._stop_timer_internal s) as [[[]|e1] s1].
  - cbn [fst snd] in *. destruct H as (Hs & _ & _ & _ & Hn & Hw & _).
    destruct (start_timer_body_idle d wants s1 Hs)
      as (H1 & H2 & H3 & H4 & H5 & H6 & H7 & H8).
    split; [intros _; exact H1|]. intros _.
    rewrite Hn in H6, H7, H8.
    repeat (split; [assumption|]).
    split.
    + intros Hok. rewrite H7, (Hc Hok). reflexivity.
    + rewrite <- Hw. clear -Hs.
      destruct s1 as [tv wv st rs tr ti nd an ap df dn dop da dp so cs].
      cbn in Hs. subst st. unfold start_timer_body. py_unfold.
      destruct wants, wv; cbn -[timer_text]; intros Hx; try discriminate; reflexivity.
  - cbn [fst snd] in *. split; [intros Hx; specialize (Hret Hx); discriminate|].
    discriminate.
Qed.

Lemma start_replaces_countdown_witness :
  let s := run_ticks 758 (win_app (main [] [ClickPomodoro])) in
  remaining_seconds s = 742 /\ sched_ok s /\
  fst (PomodoroApp.start_break s) = Return tt /\
  timer_var (snd (PomodoroApp.start_break s)) = "05:00"%string /\
  after_pending (snd (PomodoroApp.start_break s)) = [(759%nat, 1000)] /\
  _stream (snd (PomodoroApp.start_break s)) = None.
Proof.
  cbv zeta. unfold PomodoroApp.start_break.
  pose proof (start_replaces_countdown
    (run_ticks 758 (win_app (main [] [ClickPomodoro])))
    SHORT_BREAK_DURATION_SECONDS false) as H.
  cbv zeta in H. destruct H as [Hr H].
  assert (Hf : dev_faults (run_ticks 758 (win_app (main [] [ClickPomodoro]))) = [])
    by (vm_compute; reflexivity).
  assert (Hw : false && white_noise_var
                 (run_ticks 758 (win_app (main [] [ClickPomodoro]))) = false)
    by reflexivity.
  assert (Hn : after_next (run_ticks 758 (win_app (main [] [ClickPomodoro]))) = 759%nat)
    by (vm_compute; reflexivity).
  assert (Hok : sched_ok (run_ticks 758 (win_app (main [] [ClickPomodoro])))).
  { split; [vm_compute; reflexivity|intros _; vm_compute; reflexivity]. }
  pose proof (Hr (or_intror Hf)) as Hret.
  pose proof (H Hret) as H'.
  destruct H' as (_ & _ & H3 & _ & _ & _ & H7 & H8).
  split; [vm_compute; reflexivity|].
  split; [exact Hok|].
  split; [exact Hret|].
  split; [rewrite H3; reflexivity|].
  split; [rewrite (H7 Hok), Hn; reflexivity|].
  exact (H8 Hw).
Defined.

Lemma start_break_counting s :
  sched_ok s -> fst (PomodoroApp.start_break s) = Return tt ->
  let s0 := snd (PomodoroApp.start_break s) in
  counting s0 s0 0 /\ remaining_seconds s0 = 300 /\ _stream s0 = None /\
  timer_var s0 = "05:00"%string.
Proof.
  intros Hok Hr. cbv zeta.
  pose proof (start_replaces_countdown s SHORT_BREAK_DURATION_SECONDS false) as H.
  cbv zeta in H. destruct H as [_ H].
  fold PomodoroApp.start_break in H. specialize (H Hr).
  destruct H as (H1 & H2 & H3 & H4 & H5 & Hn & H6 & H7).
  specialize (H6 Hok). specialize (H7 eq_refl).
  split; [|split; [exact H2|split; [exact H7|rewrite H3; reflexivity]]].
  constructor; rewrite ?Hn; cbn [Nat.pred]; try reflexivity; try assumption.
  - rewrite H2. cbn. lia.
  - lia.
Qed.

Lemma countdown_idle_chimes (s0 : App) (n : nat) :
  counting s0 s0 0 -> remaining_seconds s0 = Z.of_nat (S n) ->
  _stream s0 = None ->
  let s' := run_ticks (S n) s0 in
  (forall k, (k <= n)%nat ->
     timer_running (run_ticks k s0) = true /\
     remaining_seconds (run_ticks k s0) = remaining_seconds s0 - Z.of_nat k /\
     calls (run_ticks k s0) = calls s0 /\ _stream (run_ticks k s0) = None) /\
  fst (fire_tick (run_ticks n s0)) = Return tt /\
  calls s' = calls s0 ++ [NoiseStop; DingThread] /\
  dev_faults s' = dev_faults s0 /\
  timer_running s' = false /\ remaining_seconds s' = 0 /\
  timer_var s' = "00:00"%string /\ after_pending s' = [] /\ timer_id s' = None.
Proof.
  intros Hc0 Hrem Hs0. cbv zeta.
  assert (Hk : forall k, (k <= n)%nat -> counting s0 (run_ticks k s0) k).
  { intros k Hle. apply counting_run; [exact Hc0|lia]. }
  split.
  { intros k Hle. destruct (Hk k Hle)
      as [d1 d2 d3 d4 d5 d6 d7 d8 d9 d10 d11 d12 d13].
    rewrite d1, d2, d6, d7, Hs0. repeat split. }
  pose proof (Hk n (le_n _)) as Hc.
  cbn [run_ticks]. generalize dependent (run_ticks n s0). intros s1 Hc.
  destruct Hc as [c1 c2 c3 c4 c5 c6 c7 c8 c9 c10 c11 c12 c13].
  rewrite (fire_tick_single s1 _ c3).
  set (s1' := set_after (after_next s1) [] s1).
  assert (Hrun' : timer_running s1' = true) by (destruct s1; exact c1).
  assert (Hr1 : remaining_seconds s1' = 1).
  { replace (remaining_seconds s1') with (remaining_seconds s1)
      by (destruct s1; reflexivity). rewrite c2, Hrem. lia. }
  assert (Hcalls' : calls s1' = calls s0) by (destruct s1; exact c6).
  assert (Hst' : _stream s1' = None) by (destruct s1; cbn in *; congruence).
  assert (Hdf' : dev_faults s1' = dev_faults s0) by (destruct s1; exact c8).
  assert (Hap' : after_pending s1' = []) by (destruct s1; reflexivity).
  clearbody s1'. clear -Hrun' Hr1 Hcalls' Hst' Hdf' Hap'.
  destruct s1' as [tv wv st rs tr ti nd an ap df dn dop da dp so cs].
  cbn in *. subst tr rs st cs df ap. py_unfold. cbn.
  rewrite <- app_assoc. repeat split.
Qed.

(** X14.  A break that is left alone counts 300 seconds down with the
    player idle and no call to it, and its 300th tick, whatever the
    device does, returns, invokes [stop] once without touching the
    device and spawns the chime once: a break ends with the same chime
    as a work interval, and leaves the timer stopped at 00:00 with
    nothing scheduled. *)
Theorem break_ends_with_one_chime (s : App) :
  sched_ok s -> fst (PomodoroApp.start_break s) = Return tt ->
  let s0 := snd (PomodoroApp.start_break s) in
  let s' := run_ticks 300 s0 in
  timer_var s0 = "05:00"%string /\
  (forall k, (k <= 299)%nat ->
     timer_running (run_ticks k s0) = true /\
     remaining_seconds (run_ticks k s0) = 300 - Z.of_nat k /\
     calls (run_ticks k s0) = calls s0 /\ _stream (run_ticks k s0) = None) /\
  fst (fire_tick (run_ticks 299 s0)) = Return tt /\
  calls s' = calls s0 ++ [NoiseStop; DingThread] /\
  dev_faults s' = dev_faults s0 /\
  timer_running s' = false /\ remaining_seconds s' = 0 /\
  timer_var s' = "00:00"%string /\ after_pending s' = [] /\ timer_id s' = None.
Proof.
  intros Hok Hr. cbv zeta.
  destruct (start_break_counting s Hok Hr) as (Hc0 & Hrem & Hs0 & Hl0).
  pose proof (countdown_idle_chimes _ 299 Hc0) as H. cbv zeta in H.
  rewrite Hrem in H. specialize (H eq_refl Hs0).
  split; [exact Hl0|]. exact H.
Qed.

Lemma break_ends_with_one_chime_witness :
  let s := PomodoroApp.init [Some "never consulted"%string] in
  let s0 := snd (PomodoroApp.start_break s) in
  sched_ok s /\ fst (PomodoroApp.start_break s) = Return tt /\
  calls (run_ticks 300 s0) = [NoiseStop; NoiseStop; NoiseStop; DingThread] /\
  dev_faults (run_ticks 300 s0) = [Some "never consulted"%string] /\
  timer_var (run_ticks 300 s0) = "00:00"%string.
Proof.
  cbv zeta.
  assert (Hok : sched_ok (PomodoroApp.init [Some "never consulted"%string])).
  { split; [reflexivity|]. intros H. now elim H. }
  pose proof (break_ends_with_one_chime
                (PomodoroApp.init [Some "never consulted"%string]) Hok eq_refl) as H.
  cbv zeta in H. destruct H as (_ & _ & _ & H4 & H5 & _ & _ & H8 & _).
  split; [exact Hok|]. split; [reflexivity|].
  split; [rewrite H4; reflexivity|]. split; [rewrite H5; reflexivity|exact H8].
Defined.

(** ** The audio callback on other shapes *)

Lemma nth_map_const {A B : Type} (l : list A) (x d : B) (i : nat) :
  (i < List.length l)%nat -> nth i (map (fun _ => x) l) d = x.
Proof.
  revert i. induction l as [|y l IH]; intros i Hi; cbn in Hi; [lia|].
  destruct i as [|i]; cbn [map nth]; [reflexivity|]. apply IH. lia.
Qed.

(** X15.  Whatever the shapes, the callback prints the warning exactly
    when [status] is not empty, and before the assignment: the line is
    printed also when numpy then raises.  Asked for one frame, numpy
    broadcasts the one sample over the column: the callback returns, and
    every row of the buffer, however many it has, holds the float32
    product of the draw and the float32 amplitude, of magnitude at most
    the float32 amplitude when the draw is in [-1.0, 1.0].  Asked for any
    other number of frames than the buffer has rows, the assignment raises
    numpy's [ValueError] with the two shapes in its message, and the
    buffer is not written. *)
Theorem callback_warns_then_broadcasts_or_raises
    (profile : NoiseProfile) (rng : nat -> spec_float)
    (outdata : list spec_float) (frames : nat) (status : string) :
  let a32 := astype_float32 (amplitude profile) in
  let r := _callback profile rng outdata frames status in
  (status = EmptyString -> fst r = []) /\
  (status <> EmptyString ->
     fst r = [("Audio stream warning: " ++ status)%string]) /\
  (frames = 1%nat ->
     let x := f32_mul (astype_float32 (rng 0%nat)) a32 in
     snd r = Return (map (fun _ => x) outdata) /\
     List.length (map (fun _ => x) outdata) = List.length outdata /\
     (is_float32 a32 = true -> SFabs_leb (rng 0%nat) lit_1_0 = true ->
      forall i, (i < List.length outdata)%nat ->
        nth i (map (fun _ => x) outdata) S754_nan = x /\
        is_float32 x = true /\ SFabs_leb x a32 = true)) /\
  (frames <> 1%nat -> List.length outdata <> frames ->
     snd r = Raise (Exception
               ("could not broadcast input array from shape ("
                ++ py_str_nat frames ++ ",) into shape ("
                ++ py_str_nat (List.length outdata) ++ ",)")%string)).
Proof.
  cbv zeta. unfold _callback. cbn [fst snd].
  set (a32 := astype_float32 (amplitude profile)).
  split; [intros ->; reflexivity|].
  split.
  { intros Hne. destruct (String.eqb_spec status EmptyString) as [E|_];
      [now elim Hne|reflexivity]. }
  split.
  - intros ->. cbn [seq map List.length].
    split; [destruct outdata as [|y [|z l]]; reflexivity|].
    split; [apply length_map|].
    intros Hf Hr i Hi.
    split; [apply nth_map_const; exact Hi|].
    exact (callback_sample_bound (amplitude profile) (rng 0%nat) Hf Hr).
  - intros Hne1 Hlen. rewrite !length_map, length_seq.
    destruct (Nat.eqb_spec frames (List.length outdata)) as [E|_];
      [now elim Hlen|].
    destruct frames as [|[|k]]; [reflexivity|now elim Hne1|reflexivity].
Qed.

Lemma callback_warns_then_broadcasts_or_raises_witness :
  let profile := mkNoiseProfile 48000 lit_0_3 in
  let rng := fun _ : nat => lit_1_0 in
  let x := S754_finite false 10066330 (-25) in
  _callback profile rng [S754_zero false; S754_zero false; S754_zero false]
            1 "underflow"
    = (["Audio stream warning: underflow"%string], Return [x; x; x]) /\
  SFabs_leb x (astype_float32 (amplitude profile)) = true /\
  _callback profile rng [S754_zero false] 2 "underflow"
    = (["Audio stream warning: underflow"%string],
       Raise (Exception
         "could not broadcast input array from shape (2,) into shape (1,)")).
Proof.
  cbv zeta.
  pose proof (callback_warns_then_broadcasts_or_raises
                (mkNoiseProfile 48000 lit_0_3) (fun _ : nat => lit_1_0)
                [S754_zero false; S754_zero false; S754_zero false]
                1%nat "underflow"%string) as H1.
  pose proof (callback_warns_then_broadcasts_or_raises
                (mkNoiseProfile 48000 lit_0_3) (fun _ : nat => lit_1_0)
                [S754_zero false] 2%nat "underflow"%string) as H2.
  cbv zeta in H1, H2.
  destruct H1 as (_ & Hp1 & Hb1 & _). destruct H2 as (_ & Hp2 & _ & Hr2).
  specialize (Hp1 ltac:(discriminate)). specialize (Hp2 ltac:(discriminate)).
  destruct (Hb1 eq_refl) as (Hs1 & _ & Hbd).
  specialize (Hr2 ltac:(discriminate) ltac:(discriminate)).
  destruct (Hbd eq_refl eq_refl 0%nat ltac:(cbn; lia)) as (_ & _ & Hle).
  split.
  { rewrite (surjective_pairing (_callback _ _ _ 1%nat _)), Hp1, Hs1.
    reflexivity. }
  split; [exact Hle|].
  rewrite (surjective_pairing (_callback _ _ _ 2%nat _)), Hp2, Hr2.
  reflexivity.
Defined.
